(** * A signing library for Cosmos: key pairs, addresses, transaction
    signing and verification ([src/index.ts]).

    The functions of [index.ts] are embedded as Rocq functions over the
    data they handle: byte arrays, JSON values, the transaction records
    and the signatures attached to them.  The libraries that [index.ts]
    imports (bip32, bech32, create-hash, secp256k1) are not part of the
    program; they enter as the operations of the class [Collaborators],
    and what the proofs need from them is stated in [CollaboratorLaws]. *)

From Stdlib Require Import Strings.Byte Strings.Ascii.
From stdpp Require Import base option list strings sorting pretty gmap.

Set Warnings "-register-all".

(** ** Data *)

(** [Bytes] of [types.ts]: a [Uint8Array] (or a [Buffer]). *)
Definition Bytes : Type := list Byte.byte.

Global Instance byte_eq_dec : EqDecision Byte.byte.
Proof.
  intros a b. destruct (Byte.eqb a b) eqn:E.
  - left. by apply Byte.byte_dec_bl.
  - right. intros ->. by rewrite Byte.byte_dec_lb in E.
Defined.

(** JSON values, as JavaScript holds them: the fields of an object are
    kept in insertion order, which is the order [Object.keys] and
    [JSON.stringify] see.  Numbers are the integers. *)
Inductive json : Type :=
| JNull
| JBool (b : bool)
| JNum (n : Z)
| JStr (s : string)
| JArr (items : list json)
| JObj (fields : list (string * json)).

(** A JavaScript exception: [new Error(message)], or the [TypeError]
    the libraries raise on an argument they reject. *)
Inductive exn : Type :=
| Error (message : string)
| TypeError (message : string).

(** The outcome of a call that may throw. *)
Inductive result (A : Type) : Type :=
| Return (a : A)
| Throw (e : exn).
Arguments Return {A} a.
Arguments Throw {A} e.

Global Instance result_ret : MRet result := fun A a => Return a.
Global Instance result_bind : MBind result := fun A B f m =>
  match m with
  | Return a => f a
  | Throw e => Throw e
  end.

(** [SignMeta]: the metadata a signature is made under. *)
Module SignMeta.
Record t : Type := mk {
  account_number : string;
  chain_id : string;
  sequence : string
}.
End SignMeta.

(** [Tx]: an unsigned transaction.  [fee] and the elements of [msg] are
    JSON values; [siblings] holds the other fields the object carries
    (apart from [signatures], whose presence makes it a [StdTx]). *)
Module Tx.
Record t : Type := mk {
  fee : json;
  memo : string;
  msg : list json;
  siblings : list (string * json)
}.
End Tx.

(** [StdSignature]: a signature together with the signer's public key. *)
Module PubKey.
Record t : Type := mk {
  type : string;
  value : string
}.
End PubKey.

Module StdSignature.
Record t : Type := mk {
  signature : string;
  pub_key : PubKey.t
}.
End StdSignature.

(** [StdTx]: a transaction with its list of signatures
    ([interface StdTx extends Tx]). *)
Module StdTx.
Record t : Type := mk {
  tx : Tx.t;
  signatures : list StdSignature.t
}.
End StdTx.

(** The argument of [signTx] has type [Tx | StdTx]; the test
    ['signatures' in tx] tells the two apart. *)
Inductive TxOrStdTx : Type :=
| Unsigned (tx : Tx.t)
| Signed (tx : StdTx.t).

(** The fields of the [Tx] part, read from either kind. *)
Definition as_Tx (tx : TxOrStdTx) : Tx.t :=
  match tx with
  | Unsigned t => t
  | Signed s => StdTx.tx s
  end.

(** [StdSignMsg]: the message that is signed. *)
Module StdSignMsg.
Record t : Type := mk {
  account_number : string;
  chain_id : string;
  fee : json;
  memo : string;
  msgs : list json;
  sequence : string
}.

(** The object as a JSON value: its six properties in the order the
    object literal of [createSignMsg] creates them. *)
Definition to_json (m : t) : json :=
  JObj [ ("account_number", JStr (account_number m));
         ("chain_id", JStr (chain_id m));
         ("fee", fee m);
         ("memo", JStr (memo m));
         ("msgs", JArr (msgs m));
         ("sequence", JStr (sequence m)) ].
End StdSignMsg.

Module KeyPair.
Record t : Type := mk {
  privateKey : Bytes;
  publicKey : Bytes
}.
End KeyPair.

Module Wallet.
Record t : Type := mk {
  address : string;
  privateKey : Bytes;
  publicKey : Bytes
}.
End Wallet.

Module BroadcastTx.
Record t : Type := mk {
  tx : StdTx.t;
  mode : string
}.
End BroadcastTx.

(** What [secp256k1.sign] returns. *)
Module SignResult.
Record t : Type := mk {
  signature : Bytes;
  recovery : Z
}.
End SignResult.

(** ** Canonical JSON *)

(** Byte-wise lexicographic order on object keys. *)
Definition key_lt (k1 k2 : string) : Prop := String.compare k1 k2 = Lt.

Definition field_lt (f1 f2 : string * json) : Prop := key_lt f1.1 f2.1.

(** Insertion of a field at its place among fields sorted by key. *)
Fixpoint insert_field (f : string * json) (fs : list (string * json))
  : list (string * json) :=
  match fs with
  | [] => [f]
  | g :: fs' =>
      if String.leb f.1 g.1 then f :: g :: fs'
      else g :: insert_field f fs'
  end.

Definition sort_fields (fs : list (string * json)) : list (string * json) :=
  foldr insert_field [] fs.

(** Modelled from the spec: [toCanonicalJSONBytes] is imported from
    [./util], which is not among the sources.  By the rules of the
    Canonicalizer: the keys of every object, at every nesting level, are
    sorted lexicographically by bytes before serialization; arrays keep
    the order of their elements; numbers and strings have one textual
    form; no whitespace is emitted. *)
Fixpoint toCanonicalJSON (v : json) : json :=
  match v with
  | JArr items => JArr (map toCanonicalJSON items)
  | JObj fields =>
      JObj (sort_fields (map (fun f => (f.1, toCanonicalJSON f.2)) fields))
  | _ => v
  end.

Definition hex_digit (n : N) : Ascii.ascii :=
  match n with
  | 0 => "0" | 1 => "1" | 2 => "2" | 3 => "3" | 4 => "4" | 5 => "5"
  | 6 => "6" | 7 => "7" | 8 => "8" | 9 => "9" | 10 => "a" | 11 => "b"
  | 12 => "c" | 13 => "d" | 14 => "e" | _ => "f"
  end%N%char.

(** One character of a JSON string: the quote and the backslash are
    escaped, a control character is written as a [\u00XX] escape. *)
Definition escape_char (c : Ascii.ascii) : string :=
  let n := Ascii.N_of_ascii c in
  if Ascii.eqb c "034"%char then String "\"%char (String "034"%char "")
  else if Ascii.eqb c "\"%char then String "\"%char (String "\"%char "")
  else if (n <? 32)%N then
    "\u00" +:+ String (hex_digit (n / 16)) (String (hex_digit (n mod 16)) "")
  else String c "".

Fixpoint escape (s : string) : string :=
  match s with
  | EmptyString => ""
  | String c s' => escape_char c +:+ escape s'
  end.

Definition quote (s : string) : string :=
  String "034"%char (escape s +:+ String "034"%char "").

Definition join_comma (parts : list string) : string :=
  match parts with
  | [] => ""
  | p :: ps => foldl (fun acc q => acc +:+ "," +:+ q) p ps
  end.

(** The text of a JSON value, without whitespace, fields and elements
    in the order the value holds them. *)
Fixpoint stringify (v : json) : string :=
  match v with
  | JNull => "null"
  | JBool true => "true"
  | JBool false => "false"
  | JNum n => pretty n
  | JStr s => quote s
  | JArr items => "[" +:+ join_comma (map stringify items) +:+ "]"
  | JObj fields =>
      "{" +:+ join_comma (map (fun f => quote f.1 +:+ ":" +:+ stringify f.2) fields)
          +:+ "}"
  end.

Definition stringToBytes (s : string) : Bytes := String.list_byte_of_string s.

Definition toCanonicalJSONString (v : json) : string :=
  stringify (toCanonicalJSON v).

Definition toCanonicalJSONBytes (v : json) : Bytes :=
  stringToBytes (toCanonicalJSONString v).

(** ** The libraries the program calls *)

(** The operations [index.ts] imports.  [derivePath] and [privateKey]
    are the two members of bip32's [BIP32Interface] that the program
    uses, the latter absent on a public-only node.  [hashBytes alg data]
    is the digest create-hash computes with algorithm [alg] over [data].
    The program calls the libraries without catching anything, so a
    call that rejects its arguments is a [Throw]: [derivePath] on a path
    it cannot follow (a hardened step from a public-only node among
    them), [secp256k1PublicKeyCreate] and [secp256k1Sign] on a private
    key they do not accept, [secp256k1Verify] on a malformed signature
    or public key, [bech32Encode] on a prefix it rejects.
    [base64ToBytes] and [bytesToBase64] come from [./util]. *)
Class Collaborators : Type := {
  BIP32Interface : Type;
  derivePath : BIP32Interface -> string -> result BIP32Interface;
  privateKey : BIP32Interface -> option Bytes;
  bech32Encode : string -> list N -> result string;
  bech32ToWords : Bytes -> list N;
  hashBytes : string -> Bytes -> Bytes;
  secp256k1PublicKeyCreate : Bytes -> bool -> result Bytes;
  secp256k1Sign : Bytes -> Bytes -> result SignResult.t;
  secp256k1Verify : Bytes -> Bytes -> Bytes -> result bool;
  base64ToBytes : string -> Bytes;
  bytesToBase64 : Bytes -> string
}.

(** What the proofs rely on: a private key the signer accepts has a
    compressed public key, under which the signature the signer returns
    verifies; and decoding undoes the base64 encoding. *)
Class CollaboratorLaws (C : Collaborators) : Prop := {
  secp256k1_sign_verify : forall hash privateKey r,
    secp256k1Sign hash privateKey = Return r ->
    exists publicKey,
      secp256k1PublicKeyCreate privateKey true = Return publicKey
      /\ secp256k1Verify hash (SignResult.signature r) publicKey = Return true;
  base64_decode_encode : forall bytes,
    base64ToBytes (bytesToBase64 bytes) = bytes
}.

(** A prefix bech32 encodes: every character has a code from 33 to
    126. *)
Definition bech32_prefix (prefix : string) : bool :=
  forallb (fun c => let n := Ascii.N_of_ascii c in (33 <=? n)%N && (n <=? 126)%N)
    (String.list_ascii_of_string prefix).

(** What [createAddress] relies on to return: a RIPEMD-160 digest has
    20 bytes; [toWords] regroups the bits of the bytes into 5-bit words,
    the last one padded; [encode] accepts 5-bit words under a prefix of
    such characters as long as prefix, separator, words and the six
    characters of the checksum are at most 90 characters. *)
Class AddressLaws (C : Collaborators) : Prop := {
  ripemd160_length : forall data, length (hashBytes "ripemd160" data) = 20;
  bech32ToWords_length : forall bytes,
    length (bech32ToWords bytes) = (8 * length bytes + 4) / 5;
  bech32ToWords_5bit : forall bytes,
    Forall (fun w => (w < 32)%N) (bech32ToWords bytes);
  bech32Encode_returns : forall prefix words,
    bech32_prefix prefix = true ->
    String.length prefix + 7 + length words <= 90 ->
    Forall (fun w => (w < 32)%N) words ->
    exists address, bech32Encode prefix words = Return address
}.

(** ** The program *)

Definition COSMOS_PREFIX : string := "cosmos".

Definition COSMOS_PATH : string := "m/44'/118'/0'/0/0".

Definition BROADCAST_MODE_SYNC : string := "sync".

Definition BROADCAST_MODE_ASYNC : string := "async".

Definition BROADCAST_MODE_BLOCK : string := "block".

(** [Array.prototype.every]: the callback is applied to the elements
    in order, up to the first one for which it returns [false]; an
    exception of the callback ends the call. *)
Fixpoint every {A : Type} (callback : A -> result bool) (elements : list A)
  : result bool :=
  match elements with
  | [] => Return true
  | x :: rest =>
      match callback x with
      | Return true => every callback rest
      | Return false => Return false
      | Throw e => Throw e
      end
  end.

Section Program.
Context {C : Collaborators}.

(** A create-hash object: the algorithm it was created for and the
    data it has been fed. *)
Record Hash : Type := mkHash {
  algorithm : string;
  buffered : Bytes
}.

Definition createHash (algorithm : string) : Hash :=
  mkHash algorithm [].

Definition update (h : Hash) (data : Bytes) : Hash :=
  mkHash (algorithm h) (buffered h ++ data).

Definition digest (h : Hash) : Bytes :=
  hashBytes (algorithm h) (buffered h).

(** [Buffer.from(bytes)]: a buffer with a copy of the bytes. *)
Definition Buffer_from (bytes : Bytes) : Bytes := bytes.

(** An omitted [path] is [COSMOS_PATH]. *)
Definition createKeyPairFromMasterKey
    (masterKey : BIP32Interface) (path : option string) : result KeyPair.t :=
  let path := default COSMOS_PATH path in
  derived ← derivePath masterKey path;
  match privateKey derived with
  | None => Throw (Error "could not derive private key")
  | Some privateKey =>
      publicKey ← secp256k1PublicKeyCreate privateKey true;
      mret (KeyPair.mk privateKey publicKey)
  end.

(** An omitted [prefix] is [COSMOS_PREFIX]. *)
Definition createAddress (publicKey : Bytes) (prefix : option string)
  : result string :=
  let prefix := default COSMOS_PREFIX prefix in
  let hash1 := digest (update (createHash "sha256") publicKey) in
  let hash2 := digest (update (createHash "ripemd160") hash1) in
  let words := bech32ToWords hash2 in
  bech32Encode prefix words.

Definition createWalletFromMasterKey
    (masterKey : BIP32Interface) (prefix path : option string) : result Wallet.t :=
  let prefix := default COSMOS_PREFIX prefix in
  let path := default COSMOS_PATH path in
  kp ← createKeyPairFromMasterKey masterKey (Some path);
  address ← createAddress (KeyPair.publicKey kp) (Some prefix);
  mret (Wallet.mk address (KeyPair.privateKey kp) (KeyPair.publicKey kp)).

Definition createSignMsg (tx : Tx.t) (meta : SignMeta.t) : StdSignMsg.t :=
  {| StdSignMsg.account_number := SignMeta.account_number meta;
     StdSignMsg.chain_id := SignMeta.chain_id meta;
     StdSignMsg.fee := Tx.fee tx;
     StdSignMsg.memo := Tx.memo tx;
     StdSignMsg.msgs := Tx.msg tx;
     StdSignMsg.sequence := SignMeta.sequence meta |}.

Definition sign (bytes privateKey : Bytes) : result Bytes :=
  let hash := digest (update (createHash "sha256") bytes) in
  r ← secp256k1Sign hash (Buffer_from privateKey);
  mret (SignResult.signature r).

Definition createSignatureBytes (signMsg : StdSignMsg.t) (privateKey : Bytes)
  : result Bytes :=
  let bytes := toCanonicalJSONBytes (StdSignMsg.to_json signMsg) in
  sign bytes privateKey.

Definition createSignature (signMsg : StdSignMsg.t) (keyPair : KeyPair.t)
  : result StdSignature.t :=
  signatureBytes ← createSignatureBytes signMsg (KeyPair.privateKey keyPair);
  mret {| StdSignature.signature := bytesToBase64 signatureBytes;
          StdSignature.pub_key :=
            {| PubKey.type := "tendermint/PubKeySecp256k1";
               PubKey.value := bytesToBase64 (KeyPair.publicKey keyPair) |} |}.

Definition signTx (tx : TxOrStdTx) (meta : SignMeta.t) (keyPair : KeyPair.t)
  : result StdTx.t :=
  let signMsg := createSignMsg (as_Tx tx) meta in
  signature ← createSignature signMsg keyPair;
  let signatures :=
    match tx with
    | Signed stx => StdTx.signatures stx ++ [signature]
    | Unsigned _ => [signature]
    end in
  mret {| StdTx.tx := as_Tx tx; StdTx.signatures := signatures |}.

Definition verifySignatureBytes
    (signMsg : StdSignMsg.t) (signature publicKey : Bytes) : result bool :=
  let bytes := toCanonicalJSONBytes (StdSignMsg.to_json signMsg) in
  let hash := digest (update (createHash "sha256") bytes) in
  secp256k1Verify hash (Buffer_from signature) (Buffer_from publicKey).

Definition verifySignature (signMsg : StdSignMsg.t) (signature : StdSignature.t)
  : result bool :=
  let signatureBytes := base64ToBytes (StdSignature.signature signature) in
  let publicKey := base64ToBytes (PubKey.value (StdSignature.pub_key signature)) in
  verifySignatureBytes signMsg signatureBytes publicKey.

Definition verifySignatures
    (signMsg : StdSignMsg.t) (signatures : list StdSignature.t) : result bool :=
  if 0 <? length signatures
  then every (fun signature => verifySignature signMsg signature) signatures
  else Return false.

Definition verifyTx (tx : StdTx.t) (meta : SignMeta.t) : result bool :=
  let signMsg := createSignMsg (StdTx.tx tx) meta in
  verifySignatures signMsg (StdTx.signatures tx).

(** An omitted [mode] is [BROADCAST_MODE_SYNC]. *)
Definition createBroadcastTx (tx : StdTx.t) (mode : option string) : BroadcastTx.t :=
  let mode := default BROADCAST_MODE_SYNC mode in
  {| BroadcastTx.tx := tx; BroadcastTx.mode := mode |}.

End Program.

(** ** JSON values up to the order of object keys *)

(** The keys of a JavaScript object are distinct, at every level. *)
Inductive json_wf : json -> Prop :=
| wf_null : json_wf JNull
| wf_bool b : json_wf (JBool b)
| wf_num n : json_wf (JNum n)
| wf_str s : json_wf (JStr s)
| wf_arr items : Forall json_wf items -> json_wf (JArr items)
| wf_obj fields :
    NoDup fields.*1 ->
    Forall (fun f => json_wf f.2) fields ->
    json_wf (JObj fields).

(** [same_json a b]: [a] and [b] are structurally equal and differ at
    most in the insertion order of the keys of their objects.  Arrays
    correspond element by element; the fields of an object correspond
    after a permutation. *)
Inductive same_json : json -> json -> Prop :=
| same_null : same_json JNull JNull
| same_bool b : same_json (JBool b) (JBool b)
| same_num n : same_json (JNum n) (JNum n)
| same_str s : same_json (JStr s) (JStr s)
| same_arr xs ys :
    Forall2 same_json xs ys -> same_json (JArr xs) (JArr ys)
| same_obj fs gs' gs :
    fs ≡ₚ gs' ->
    Forall2 (fun f g => f.1 = g.1 /\ same_json f.2 g.2) gs' gs ->
    same_json (JObj fs) (JObj gs).

(** [keys_sorted v]: in every object of [v] the keys increase strictly
    in the byte-wise lexicographic order. *)
Inductive keys_sorted : json -> Prop :=
| sorted_null : keys_sorted JNull
| sorted_bool b : keys_sorted (JBool b)
| sorted_num n : keys_sorted (JNum n)
| sorted_str s : keys_sorted (JStr s)
| sorted_arr items : Forall keys_sorted items -> keys_sorted (JArr items)
| sorted_obj fields :
    StronglySorted field_lt fields ->
    Forall (fun f => keys_sorted f.2) fields ->
    keys_sorted (JObj fields).

(** Structural induction on JSON values, with the hypothesis for every
    element of an array and every field of an object. *)
Section json_structural_induction.
Variable P : json -> Prop.
Hypothesis Hnull : P JNull.
Hypothesis Hbool : forall b, P (JBool b).
Hypothesis Hnum : forall n, P (JNum n).
Hypothesis Hstr : forall s, P (JStr s).
Hypothesis Harr : forall items, Forall P items -> P (JArr items).
Hypothesis Hobj : forall fields, Forall (fun f => P f.2) fields -> P (JObj fields).

Fixpoint json_induction (v : json) : P v :=
  match v with
  | JNull => Hnull
  | JBool b => Hbool b
  | JNum n => Hnum n
  | JStr s => Hstr s
  | JArr items =>
      Harr items
        ((fix elements (l : list json) : Forall P l :=
            match l with
            | [] => List.Forall_nil P
            | x :: l' => List.Forall_cons P x l' (json_induction x) (elements l')
            end) items)
  | JObj fields =>
      Hobj fields
        ((fix members (l : list (string * json)) : Forall (fun f => P f.2) l :=
            match l with
            | [] => List.Forall_nil _
            | f :: l' => List.Forall_cons _ f l' (json_induction f.2) (members l')
            end) fields)
  end.
End json_structural_induction.

(** ** Values the statements speak of *)

Section Notions.
Context {C : Collaborators}.

(** The digest a signature covers (Hasher):
    [sha256(canonicalize(signMessage))]. *)
Definition signDigest (signMsg : StdSignMsg.t) : Bytes :=
  hashBytes "sha256" (toCanonicalJSONBytes (StdSignMsg.to_json signMsg)).

(** The signatures a transaction carries before it is signed again. *)
Definition prior_signatures (tx : TxOrStdTx) : list StdSignature.t :=
  match tx with
  | Signed stx => StdTx.signatures stx
  | Unsigned _ => []
  end.

(** The entry that holds raw signature bytes and a public key. *)
Definition signature_entry (signatureBytes publicKey : Bytes) : StdSignature.t :=
  {| StdSignature.signature := bytesToBase64 signatureBytes;
     StdSignature.pub_key :=
       {| PubKey.type := "tendermint/PubKeySecp256k1";
          PubKey.value := bytesToBase64 publicKey |} |}.

(** The answer of secp256k1 for an entry, checked against a digest with
    the key the entry embeds. *)
Definition entry_verifies (hash : Bytes) (s : StdSignature.t) : result bool :=
  secp256k1Verify hash
    (base64ToBytes (StdSignature.signature s))
    (base64ToBytes (PubKey.value (StdSignature.pub_key s))).

End Notions.

(** ** Transactions as objects in a store

    [signTx] receives a reference to a transaction object and returns a
    reference to another one.  To speak of what happens to the object
    it was given, the objects involved are placed in a store: a
    transaction object holds the fields of a [Tx] and, when it has the
    property [signatures], a reference to an array of signatures. *)
Module Store.

Definition loc : Type := nat.

Inductive cell : Type :=
| TxObject (fields : Tx.t) (signatures : option loc)
| SignatureArray (entries : list StdSignature.t).

(** A new object: a location the store does not use yet. *)
Definition alloc (c : cell) (h : gmap loc cell) : loc * gmap loc cell :=
  let l := fresh (dom h) in (l, <[l := c]> h).

(** The transaction a reference stands for. *)
Definition read_tx (h : gmap loc cell) (l : loc) : option TxOrStdTx :=
  match h !! l with
  | Some (TxObject fields None) => Some (Unsigned fields)
  | Some (TxObject fields (Some a)) =>
      match h !! a with
      | Some (SignatureArray entries) => Some (Signed (StdTx.mk fields entries))
      | _ => None
      end
  | _ => None
  end.

(** [signTx] on references.  The array literals [[...tx.signatures,
    signature]] and [[signature]] create an array, and the object
    literal [{...tx, signatures}] creates an object that copies the
    properties of [tx] and sets [signatures]; the function assigns to
    nothing else.  It is undefined on a reference that is not a
    transaction of the store. *)
Definition signTx {C : Collaborators}
    (tx : loc) (meta : SignMeta.t) (keyPair : KeyPair.t) (h : gmap loc cell)
  : option (result (loc * gmap loc cell)) :=
  match read_tx h tx with
  | None => None
  | Some t =>
      let signMsg := createSignMsg (as_Tx t) meta in
      Some (signature ← createSignature signMsg keyPair;
            let '(signatures, h1) :=
              alloc (SignatureArray
                       match t with
                       | Signed stx => StdTx.signatures stx ++ [signature]
                       | Unsigned _ => [signature]
                       end) h in
            mret (alloc (TxObject (as_Tx t) (Some signatures)) h1))
  end.

End Store.

(** ** Stand-ins for the libraries

    A small implementation of the interface [Collaborators], on which
    the program runs inside Rocq: a public key is the private key
    reversed, a signature is the digest followed by the public key.
    The stand-ins reject what the libraries reject: the empty private
    key, an empty signature or public key, a hardened step of a path
    from a node without private key, a prefix that makes the address
    longer than 90 characters or holds a character outside the range of
    bech32, a word of more than 5 bits.  A RIPEMD-160 digest has 20
    bytes, and [n] bytes make as many words as [8 * n] bits fill.  They
    satisfy [CollaboratorLaws] and [AddressLaws]. *)
Module Standin.

Definition hash (algorithm : string) (data : Bytes) : Bytes :=
  if String.eqb algorithm "ripemd160"
  then resize 20 Byte.x00 data
  else stringToBytes algorithm ++ data.

Definition publicKeyCreate (privateKey : Bytes) (compressed : bool)
  : result Bytes :=
  if decide (privateKey = [])
  then Throw (Error "private key is invalid")
  else Return (reverse privateKey).

Definition sign (hash privateKey : Bytes) : result SignResult.t :=
  if decide (privateKey = [])
  then Throw (Error "private key is invalid")
  else Return (SignResult.mk (hash ++ reverse privateKey) 0).

Definition verify (hash signature publicKey : Bytes) : result bool :=
  if decide (signature = [])
  then Throw (Error "signature length is invalid")
  else if decide (publicKey = [])
  then Throw (Error "public key length is invalid")
  else Return (bool_decide (signature = hash ++ publicKey)).

Definition toWords (bytes : Bytes) : list N :=
  (fun b => (Byte.to_N b mod 32)%N)
    <$> resize ((8 * length bytes + 4) / 5) Byte.x00 bytes.

Definition encode (prefix : string) (words : list N) : result string :=
  if 90 <? String.length prefix + 7 + length words
  then Throw (TypeError "Exceeds length limit")
  else if negb (bech32_prefix prefix)
  then Throw (Error "Invalid prefix")
  else if negb (forallb (fun w => (w <? 32)%N) words)
  then Throw (Error "Non 5-bit word")
  else Return (foldl (fun acc w => acc +:+ pretty w) (prefix +:+ "1") words).

(** A node of the key tree: its private key, if it has one. *)
Definition node : Type := option Bytes.

(** A path has a hardened step when it contains an apostrophe. *)
Fixpoint hardened (path : string) : bool :=
  match path with
  | EmptyString => false
  | String c rest => Ascii.eqb c "'"%char || hardened rest
  end.

Definition derive (n : node) (path : string) : result node :=
  match n with
  | Some key => Return (Some (key ++ stringToBytes path))
  | None =>
      if hardened path
      then Throw (TypeError "Missing private key for hardened child key")
      else Return None
  end.

Definition collaborators : Collaborators :=
  {| BIP32Interface := node;
     derivePath := derive;
     privateKey := fun n => n;
     bech32Encode := encode;
     bech32ToWords := toWords;
     hashBytes := hash;
     secp256k1PublicKeyCreate := publicKeyCreate;
     secp256k1Sign := sign;
     secp256k1Verify := verify;
     base64ToBytes := String.list_byte_of_string;
     bytesToBase64 := String.string_of_list_byte |}.

(** The transaction and metadata of the spec's pinned scenario. *)
Definition tx0 : Tx.t :=
  {| Tx.fee := JObj [("amount", JArr []); ("gas", JStr "200000")];
     Tx.memo := "";
     Tx.msg := [];
     Tx.siblings := [] |}.

Definition meta0 : SignMeta.t :=
  {| SignMeta.account_number := "0";
     SignMeta.chain_id := "test-chain";
     SignMeta.sequence := "0" |}.

(** The same account one transaction later. *)
Definition meta1 : SignMeta.t :=
  {| SignMeta.account_number := "0";
     SignMeta.chain_id := "test-chain";
     SignMeta.sequence := "1" |}.

Definition alice : KeyPair.t :=
  {| KeyPair.privateKey := [Byte.x01; Byte.x02];
     KeyPair.publicKey := [Byte.x02; Byte.x01] |}.

Definition bob : KeyPair.t :=
  {| KeyPair.privateKey := [Byte.x03; Byte.x04];
     KeyPair.publicKey := [Byte.x04; Byte.x03] |}.

(** The signature of [alice] over the sign message of [tx0] and
    [meta0]. *)
Definition alice_signed_entry : StdSignature.t :=
  @signature_entry collaborators
    (@signDigest collaborators (@createSignMsg tx0 meta0)
       ++ KeyPair.publicKey alice)
    (KeyPair.publicKey alice).


(** A public key of 33 bytes, the first of them the tag of a compressed
    point. *)
Definition compressed_key : Bytes := Byte.x02 :: replicate 32 Byte.x01.

(** A prefix of 54 characters. *)
Definition long_prefix : string :=
  "cosmoscosmoscosmoscosmoscosmoscosmoscosmoscosmoscosmos".

(** [tx0] signed by [alice] under [meta0]. *)
Definition alice_signed : StdTx.t :=
  {| StdTx.tx := tx0; StdTx.signatures := [alice_signed_entry] |}.

(** [tx0] with the keys of its fee inserted in the other order. *)
Definition tx0_reordered : Tx.t :=
  {| Tx.fee := JObj [("gas", JStr "200000"); ("amount", JArr [])];
     Tx.memo := "";
     Tx.msg := [];
     Tx.siblings := [] |}.

(** A store that holds [alice_signed]: the array of its signatures at
    location 0, the transaction object at location 1. *)
Definition store0 : gmap Store.loc Store.cell :=
  {[ 0 := Store.SignatureArray (StdTx.signatures alice_signed);
     1 := Store.TxObject tx0 (Some 0) ]}.

End Standin.

(** ** Wallets from a mnemonic *)

(** The operations [index.ts] imports from bip39 and bip32 to turn a
    mnemonic into a master key.  [createMasterKeyFromMnemonic] is
    documented to throw on an invalid mnemonic; either call may be the
    one that throws. *)
Class MnemonicCollaborators (C : Collaborators) : Type := {
  mnemonicToSeedSync : string -> result Bytes;
  fromSeed : Bytes -> result BIP32Interface
}.

Section MnemonicProgram.
Context {C : Collaborators} {M : MnemonicCollaborators C}.

Definition createMasterKeyFromMnemonic (mnemonic : string) : result BIP32Interface :=
  seed ← mnemonicToSeedSync mnemonic;
  fromSeed seed.

(** An omitted [prefix] is [COSMOS_PREFIX], an omitted [path] is
    [COSMOS_PATH]. *)
Definition createWalletFromMnemonic
    (mnemonic : string) (prefix path : option string) : result Wallet.t :=
  let prefix := default COSMOS_PREFIX prefix in
  let path := default COSMOS_PATH path in
  masterKey ← createMasterKeyFromMnemonic mnemonic;
  createWalletFromMasterKey masterKey (Some prefix) (Some path).

End MnemonicProgram.

(** A [Wallet] passed where a [KeyPair] is expected (the [keyPair]
    parameter of [signTx] and [createSignature] is documented to take
    either): the callee reads [privateKey] and [publicKey]. *)
Definition Wallet_as_KeyPair (w : Wallet.t) : KeyPair.t :=
  {| KeyPair.privateKey := Wallet.privateKey w;
     KeyPair.publicKey := Wallet.publicKey w |}.

(** Several signers in turn: [signTx] applied to a signed transaction
    once for each key pair, every time on the result of the call
    before, under the same metadata. *)
Fixpoint signTx_each {C : Collaborators}
    (tx : StdTx.t) (meta : SignMeta.t) (keyPairs : list KeyPair.t)
  : result StdTx.t :=
  match keyPairs with
  | [] => Return tx
  | keyPair :: rest =>
      match signTx (Signed tx) meta keyPair with
      | Return tx' => signTx_each tx' meta rest
      | Throw e => Throw e
      end
  end.

(** Stand-ins for the mnemonic operations: the seed is the text of the
    mnemonic, and the master key holds the seed as its private key. *)
Module StandinMnemonic.

Definition toSeed (mnemonic : string) : result Bytes :=
  Return (stringToBytes mnemonic).

Definition master (seed : Bytes)
  : result (@BIP32Interface Standin.collaborators) :=
  Return (Some seed).

Definition collaborators : MnemonicCollaborators Standin.collaborators :=
  {| mnemonicToSeedSync := toSeed;
     fromSeed := master |}.

(** A master key that holds a private key, and one that holds none. *)
Definition master_key : Standin.node := Some [Byte.x01; Byte.x02].

Definition public_only_key : Standin.node := None.

(** The signature of [Standin.bob] over the sign message of
    [Standin.tx0] and [Standin.meta0]. *)
Definition bob_signed_entry : StdSignature.t :=
  @signature_entry Standin.collaborators
    (@signDigest Standin.collaborators (@createSignMsg Standin.tx0 Standin.meta0)
       ++ KeyPair.publicKey Standin.bob)
    (KeyPair.publicKey Standin.bob).

End StandinMnemonic.

(** A signature entry with the type tag of its public key replaced. *)
Definition with_pub_key_type (type : string) (s : StdSignature.t) : StdSignature.t :=
  {| StdSignature.signature := StdSignature.signature s;
     StdSignature.pub_key :=
       {| PubKey.type := type;
          PubKey.value := PubKey.value (StdSignature.pub_key s) |} |}.

(** ** The characters of the canonical text

    Notions for reading a text back: the characters a JSON text can
    start with, and the characters that follow the first element of a
    bracketed, comma-separated list. *)

Definition is_digit (c : Ascii.ascii) : bool :=
  let n := Ascii.N_of_ascii c in (48 <=? n)%N && (n <=? 57)%N.

(** What may follow a value in a text: nothing, or a character that is
    not a digit. *)
Definition ends (r : list Ascii.ascii) : Prop :=
  match r with
  | [] => True
  | c :: _ => is_digit c = false
  end.

Definition all_ascii : list Ascii.ascii := map Ascii.ascii_of_nat (seq 0 256).

Fixpoint is_prefix (p l : list Ascii.ascii) : bool :=
  match p, l with
  | [], _ => true
  | c :: p', d :: l' => Ascii.eqb c d && is_prefix p' l'
  | _ :: _, [] => false
  end.

(** The characters written for one character of a string. *)
Definition echars (c : Ascii.ascii) : list Ascii.ascii :=
  String.list_ascii_of_string (escape_char c).

(** The characters a JSON text can start with. *)
Definition value_start (c : Ascii.ascii) : bool :=
  is_digit c
  || bool_decide (c ∈ ["n"; "t"; "f"; "034"; "["; "{"; "-"]%char).

Fixpoint tail_chars (close : Ascii.ascii) (parts : list (list Ascii.ascii))
    (r : list Ascii.ascii) : list Ascii.ascii :=
  match parts with
  | [] => close :: r
  | p :: parts' => ","%char :: p ++ tail_chars close parts' r
  end.

Definition seq_chars (close : Ascii.ascii) (parts : list (list Ascii.ascii))
    (r : list Ascii.ascii) : list Ascii.ascii :=
  match parts with
  | [] => close :: r
  | p :: parts' => p ++ tail_chars close parts' r
  end.

(** [cancels render x]: the text of [x], followed by anything that may
    follow a value, can be read back in one way only. *)
Definition cancels {E : Type} (render : E -> list Ascii.ascii) (x : E) : Prop :=
  forall y r1 r2, ends r1 -> ends r2 ->
    render x ++ r1 = render y ++ r2 -> x = y /\ r1 = r2.

Definition render_value (v : json) : list Ascii.ascii :=
  String.list_ascii_of_string (stringify v).

Definition render_field (f : string * json) : list Ascii.ascii :=
  String.list_ascii_of_string (quote f.1 +:+ ":" +:+ stringify f.2).

(** Two fields with the same key and the same value up to key order. *)
Definition same_field (f g : string * json) : Prop :=
  f.1 = g.1 /\ same_json f.2 g.2.

(** * Properties of the program *)

(** [every] answers [true] exactly when the callback does on every
    element. *)
Lemma every_true_Forall {A} (f : A -> result bool) (l : list A) :
  every f l = Return true <-> Forall (fun x => f x = Return true) l.
Proof.
  induction l as [|x l IH]; simpl.
  - split; [constructor | reflexivity].
  - rewrite Forall_cons, <- IH.
    destruct (f x) as [[]|e]; split; try tauto; try discriminate;
      intros [? ?]; discriminate.
Qed.

(** [every] on a concatenation: the second part is reached only when
    the first answers [true]. *)
Lemma every_app {A} (f : A -> result bool) (l1 l2 : list A) :
  every f (l1 ++ l2) =
  match every f l1 with
  | Return true => every f l2
  | Return false => Return false
  | Throw e => Throw e
  end.
Proof.
  induction l1 as [|x l1 IH]; simpl; [reflexivity|].
  destruct (f x) as [[]|e]; auto.
Qed.

(** When the callback returns on every element, so does [every]. *)
Lemma every_returns {A} (f : A -> result bool) (l : list A) :
  Forall (fun x => exists b, f x = Return b) l ->
  exists b, every f l = Return b.
Proof.
  induction 1 as [|x l [b Hb] _ IH]; simpl; [eauto|].
  rewrite Hb. destruct b; eauto.
Qed.

Section ProgramFacts.
Context {C : Collaborators}.

(** Feeding a fresh hash object once and reading its digest is the
    library's hash of the data. *)
Lemma digest_update (algorithm : string) (data : Bytes) :
  digest (update (createHash algorithm) data) = hashBytes algorithm data.
Proof. reflexivity. Qed.

(** [createSignature] succeeds exactly when the signer does, and wraps
    the bytes it returns. *)
Lemma createSignature_unfold (signMsg : StdSignMsg.t) (keyPair : KeyPair.t) :
  createSignature signMsg keyPair =
  match secp256k1Sign (signDigest signMsg) (KeyPair.privateKey keyPair) with
  | Return r =>
      Return (signature_entry (SignResult.signature r) (KeyPair.publicKey keyPair))
  | Throw e => Throw e
  end.
Proof.
  unfold createSignature, createSignatureBytes, sign, signDigest, Buffer_from.
  rewrite digest_update.
  destruct (secp256k1Sign _ _); reflexivity.
Qed.

Lemma signTx_unfold (tx : TxOrStdTx) (meta : SignMeta.t) (keyPair : KeyPair.t) :
  signTx tx meta keyPair =
  match createSignature (createSignMsg (as_Tx tx) meta) keyPair with
  | Return s => Return (StdTx.mk (as_Tx tx) (prior_signatures tx ++ [s]))
  | Throw e => Throw e
  end.
Proof.
  unfold signTx.
  destruct (createSignature _ _) as [s|e]; [|reflexivity].
  destruct tx; reflexivity.
Qed.

Lemma verifySignature_unfold (signMsg : StdSignMsg.t) (s : StdSignature.t) :
  verifySignature signMsg s = entry_verifies (signDigest signMsg) s.
Proof. reflexivity. Qed.

Lemma verifySignatures_unfold (signMsg : StdSignMsg.t) (sigs : list StdSignature.t) :
  verifySignatures signMsg sigs =
  match sigs with
  | [] => Return false
  | _ :: _ => every (entry_verifies (signDigest signMsg)) sigs
  end.
Proof. destruct sigs; reflexivity. Qed.

(** C4: the sign message built from a transaction and metadata is the
    record of six fields [account_number], [chain_id], [fee], [memo],
    [msgs], [sequence]; [account_number], [chain_id] and [sequence]
    come from the metadata, [fee] and [memo] from the transaction, and
    [msgs] is the transaction's [msg] sequence, element by element.
    The object that is canonicalized has these six keys and no other,
    with the messages in the order of the transaction. *)
Theorem createSignMsg_fields (tx : Tx.t) (meta : SignMeta.t) :
  createSignMsg tx meta =
    StdSignMsg.mk (SignMeta.account_number meta) (SignMeta.chain_id meta)
      (Tx.fee tx) (Tx.memo tx) (Tx.msg tx) (SignMeta.sequence meta)
  /\ StdSignMsg.to_json (createSignMsg tx meta) =
       JObj [ ("account_number", JStr (SignMeta.account_number meta));
              ("chain_id", JStr (SignMeta.chain_id meta));
              ("fee", Tx.fee tx);
              ("memo", JStr (Tx.memo tx));
              ("msgs", JArr (Tx.msg tx));
              ("sequence", JStr (SignMeta.sequence meta)) ]
  /\ (forall i : nat, StdSignMsg.msgs (createSignMsg tx meta) !! i = Tx.msg tx !! i)
  /\ toCanonicalJSON (StdSignMsg.to_json (createSignMsg tx meta)) =
       JObj [ ("account_number", JStr (SignMeta.account_number meta));
              ("chain_id", JStr (SignMeta.chain_id meta));
              ("fee", toCanonicalJSON (Tx.fee tx));
              ("memo", JStr (Tx.memo tx));
              ("msgs", JArr (map toCanonicalJSON (Tx.msg tx)));
              ("sequence", JStr (SignMeta.sequence meta)) ].
Proof.
  split; [reflexivity|]. split; [reflexivity|]. split; [reflexivity|].
  unfold createSignMsg, StdSignMsg.to_json. simpl. reflexivity.
Qed.

(** C9: two transactions that agree on [msg], [fee] and [memo], whatever
    their signatures and sibling fields, give the same sign message
    under the same metadata; so the digest is the same, the signature a
    key pair makes is the same (and is the entry [signTx] appends), and
    every signature verifies against the one exactly when it verifies
    against the other. *)
Theorem createSignMsg_ignores_signatures
    (tx1 tx2 : TxOrStdTx) (meta : SignMeta.t) :
  Tx.msg (as_Tx tx1) = Tx.msg (as_Tx tx2) ->
  Tx.fee (as_Tx tx1) = Tx.fee (as_Tx tx2) ->
  Tx.memo (as_Tx tx1) = Tx.memo (as_Tx tx2) ->
  let m1 := createSignMsg (as_Tx tx1) meta in
  let m2 := createSignMsg (as_Tx tx2) meta in
  m1 = m2
  /\ signDigest m1 = signDigest m2
  /\ (forall keyPair, createSignature m1 keyPair = createSignature m2 keyPair)
  /\ (forall keyPair stx1 stx2,
        signTx tx1 meta keyPair = Return stx1 ->
        signTx tx2 meta keyPair = Return stx2 ->
        last (StdTx.signatures stx1) = last (StdTx.signatures stx2)
        /\ is_Some (last (StdTx.signatures stx1)))
  /\ (forall s, verifySignature m1 s = verifySignature m2 s)
  /\ (forall sigs, verifySignatures m1 sigs = verifySignatures m2 sigs).
Proof.
  intros Hmsg Hfee Hmemo m1 m2.
  assert (m1 = m2) as Hm.
  { unfold m1, m2, createSignMsg. rewrite Hmsg, Hfee, Hmemo. reflexivity. }
  split; [exact Hm|].
  split; [rewrite Hm; reflexivity|].
  split; [intros keyPair; rewrite Hm; reflexivity|].
  split; [|split; intros; rewrite Hm; reflexivity].
  intros keyPair stx1 stx2. rewrite !signTx_unfold. fold m1 m2. rewrite Hm.
  destruct (createSignature m2 keyPair) as [s|e]; [|discriminate].
  intros [= <-] [= <-]. simpl. rewrite !last_snoc. eauto.
Qed.

(** C8: a signature made by [createSignature] holds, under [signature],
    the base64 text of the raw bytes the signer returned for the digest
    of the sign message and, under [pub_key], the type
    [tendermint/PubKeySecp256k1] with the base64 text of the key pair's
    public key. *)
Theorem createSignature_shape
    (signMsg : StdSignMsg.t) (keyPair : KeyPair.t) (s : StdSignature.t) :
  createSignature signMsg keyPair = Return s ->
  exists r : SignResult.t,
    secp256k1Sign (signDigest signMsg) (KeyPair.privateKey keyPair) = Return r
    /\ s = {| StdSignature.signature := bytesToBase64 (SignResult.signature r);
              StdSignature.pub_key :=
                {| PubKey.type := "tendermint/PubKeySecp256k1";
                   PubKey.value := bytesToBase64 (KeyPair.publicKey keyPair) |} |}.
Proof.
  rewrite createSignature_unfold.
  destruct (secp256k1Sign _ _) as [r|e]; [|discriminate].
  intros [= <-]. exists r. split; reflexivity.
Qed.

End ProgramFacts.

(** ** The store: allocation leaves what was there in place *)

Section StoreFacts.
Import Store.

Lemma alloc_fresh (c : cell) (h : gmap loc cell) : h !! (alloc c h).1 = None.
Proof. simpl. apply not_elem_of_dom, is_fresh. Qed.

Lemma alloc_lookup (c : cell) (h : gmap loc cell) :
  (alloc c h).2 !! (alloc c h).1 = Some c.
Proof. simpl. apply lookup_insert_eq. Qed.

Lemma alloc_frame (c : cell) (h : gmap loc cell) (k : loc) (v : cell) :
  h !! k = Some v -> (alloc c h).2 !! k = Some v.
Proof.
  intros Hk. simpl. rewrite lookup_insert_ne; [exact Hk|].
  intros <-. pose proof (alloc_fresh c h) as Hfresh. simpl in Hfresh. congruence.
Qed.

(** Reading a transaction depends only on the cells it refers to. *)
Lemma read_tx_frame (h h' : gmap loc cell) (l : loc) (tx : TxOrStdTx) :
  (forall k c, h !! k = Some c -> h' !! k = Some c) ->
  read_tx h l = Some tx -> read_tx h' l = Some tx.
Proof.
  intros Hframe. unfold read_tx.
  destruct (h !! l) as [[fields [a|]|]|] eqn:Hl; try discriminate.
  - destruct (h !! a) as [[|entries]|] eqn:Ha; try discriminate.
    rewrite (Hframe _ _ Hl), (Hframe _ _ Ha). auto.
  - rewrite (Hframe _ _ Hl). auto.
Qed.

End StoreFacts.

Section SignerFacts.
Context {C : Collaborators}.

(** C3: [signTx] returns whenever the signer returns signature bytes,
    and what it returns is a transaction whose signatures are the ones
    the input carried (none for an unsigned input), unchanged and in
    their order, followed by exactly one new entry, and whose other
    fields are those of the input.  In the store, the result is a new
    object; every object that existed before, the input among them, is
    as it was. *)
Theorem signTx_appends (tx : TxOrStdTx) (meta : SignMeta.t) (keyPair : KeyPair.t) :
  match secp256k1Sign (signDigest (createSignMsg (as_Tx tx) meta))
          (KeyPair.privateKey keyPair) with
  | Throw e => signTx tx meta keyPair = Throw e
  | Return r =>
      let s := signature_entry (SignResult.signature r) (KeyPair.publicKey keyPair) in
      let stx := StdTx.mk (as_Tx tx) (prior_signatures tx ++ [s]) in
      signTx tx meta keyPair = Return stx
      /\ length (StdTx.signatures stx) = S (length (prior_signatures tx))
      /\ (forall i : nat, i < length (prior_signatures tx) ->
            StdTx.signatures stx !! i = prior_signatures tx !! i)
      /\ StdTx.tx stx = as_Tx tx
      /\ (forall (h : gmap Store.loc Store.cell) (l : Store.loc),
            Store.read_tx h l = Some tx ->
            exists l' h',
              Store.signTx l meta keyPair h = Some (Return (l', h'))
              /\ h !! l' = None
              /\ Store.read_tx h' l' = Some (Signed stx)
              /\ (forall k c, h !! k = Some c -> h' !! k = Some c)
              /\ Store.read_tx h' l = Some tx)
  end.
Proof.
  destruct (secp256k1Sign _ _) as [r|e] eqn:Hsign.
  2: { rewrite signTx_unfold, createSignature_unfold, Hsign. reflexivity. }
  simpl. split; [|split; [|split; [|split]]].
  - rewrite signTx_unfold, createSignature_unfold, Hsign. reflexivity.
  - rewrite length_app. simpl. lia.
  - intros i Hi. apply lookup_app_l, Hi.
  - reflexivity.
  - intros h l Hread.
    set (s := signature_entry (SignResult.signature r) (KeyPair.publicKey keyPair)).
    set (arr := Store.SignatureArray (prior_signatures tx ++ [s])).
    set (h1 := (Store.alloc arr h).2).
    set (a := (Store.alloc arr h).1).
    set (obj := Store.TxObject (as_Tx tx) (Some a)).
    exists (Store.alloc obj h1).1, (Store.alloc obj h1).2.
    assert (forall k c, h !! k = Some c -> (Store.alloc obj h1).2 !! k = Some c)
      as Hframe.
    { intros k c Hk. apply alloc_frame, alloc_frame, Hk. }
    split; [|split; [|split; [|split]]].
    + unfold Store.signTx. rewrite Hread, createSignature_unfold, Hsign.
      simpl. f_equal. f_equal. destruct tx; reflexivity.
    + destruct (h !! (Store.alloc obj h1).1) as [c|] eqn:Hl'; [|reflexivity].
      apply (alloc_frame arr) in Hl'. fold h1 in Hl'.
      rewrite alloc_fresh in Hl'. discriminate.
    + unfold Store.read_tx. rewrite alloc_lookup. cbv beta iota delta [obj].
      rewrite (alloc_frame (Store.TxObject (as_Tx tx) (Some a)) h1 a arr);
        [reflexivity|].
      apply alloc_lookup.
    + exact Hframe.
    + eapply read_tx_frame; eauto.
Qed.


(** C10: [createBroadcastTx] returns the pair of the transaction, as it
    was given, and the mode, whatever string it is; an omitted mode is
    [sync]. *)
Theorem createBroadcastTx_pair (tx : StdTx.t) (mode : string) :
  createBroadcastTx tx (Some mode) = BroadcastTx.mk tx mode
  /\ createBroadcastTx tx None = BroadcastTx.mk tx "sync".
Proof. split; reflexivity. Qed.

(** C6 (amended): key derivation throws in three cases and in no
    other: [derivePath] throws (a hardened step from a public-only key
    among the cases), and its exception passes unchanged; the node the
    path leads to has no private key, and the error is the one of
    [index.ts]; the library rejects the derived private key, and its
    exception passes unchanged.  Otherwise it returns the derived
    private key with the compressed public key computed from it. *)
Theorem createKeyPairFromMasterKey_result
    (masterKey : BIP32Interface) (path : option string) :
  let derived := derivePath masterKey (default COSMOS_PATH path) in
  (forall e, derived = Throw e ->
     createKeyPairFromMasterKey masterKey path = Throw e)
  /\ (forall node, derived = Return node -> privateKey node = None ->
        createKeyPairFromMasterKey masterKey path
          = Throw (Error "could not derive private key"))
  /\ (forall node key e, derived = Return node -> privateKey node = Some key ->
        secp256k1PublicKeyCreate key true = Throw e ->
        createKeyPairFromMasterKey masterKey path = Throw e)
  /\ (forall node key publicKey,
        derived = Return node -> privateKey node = Some key ->
        secp256k1PublicKeyCreate key true = Return publicKey ->
        createKeyPairFromMasterKey masterKey path
          = Return (KeyPair.mk key publicKey))
  /\ (forall keyPair,
        createKeyPairFromMasterKey masterKey path = Return keyPair ->
        exists node,
          derived = Return node
          /\ privateKey node = Some (KeyPair.privateKey keyPair)
          /\ secp256k1PublicKeyCreate (KeyPair.privateKey keyPair) true
               = Return (KeyPair.publicKey keyPair))
  /\ (forall e,
        createKeyPairFromMasterKey masterKey path = Throw e ->
        derived = Throw e
        \/ (exists node, derived = Return node /\ privateKey node = None
                         /\ e = Error "could not derive private key")
        \/ (exists node key, derived = Return node /\ privateKey node = Some key
                             /\ secp256k1PublicKeyCreate key true = Throw e))
  /\ createKeyPairFromMasterKey masterKey None
       = createKeyPairFromMasterKey masterKey (Some "m/44'/118'/0'/0/0").
Proof.
  intros derived. unfold createKeyPairFromMasterKey. fold derived.
  destruct derived as [node|e0]; simpl.
  2: { repeat split; try discriminate; try reflexivity.
       - intros e [= <-]. reflexivity.
       - intros e [= <-]. left. reflexivity. }
  destruct (privateKey node) as [key|] eqn:Hkey; simpl.
  2: { repeat split; try discriminate; try reflexivity.
       - intros node' key e [= <-]. rewrite Hkey. discriminate.
       - intros node' key pub [= <-]. rewrite Hkey. discriminate.
       - intros e [= <-]. right. left. exists node. auto. }
  destruct (secp256k1PublicKeyCreate key true) as [pub|e1] eqn:Hpub; simpl.
  - repeat split; try discriminate; try reflexivity.
    + intros node' [= <-]. rewrite Hkey. discriminate.
    + intros node' key' e [= <-]. rewrite Hkey. intros [= <-]. rewrite Hpub.
      discriminate.
    + intros node' key' pub' [= <-]. rewrite Hkey. intros [= <-]. rewrite Hpub.
      intros [= <-]. reflexivity.
    + intros keyPair [= <-]. simpl. exists node. auto.
  - repeat split; try discriminate; try reflexivity.
    + intros node' [= <-]. rewrite Hkey. discriminate.
    + intros node' key' e [= <-]. rewrite Hkey. intros [= <-]. rewrite Hpub.
      intros [= <-]. reflexivity.
    + intros node' key' pub' [= <-]. rewrite Hkey. intros [= <-]. rewrite Hpub.
      discriminate.
    + intros e [= <-]. right. right. exists node, key. auto.
Qed.

(** C7 (amended): the address of a public key is the bech32 encoding,
    under the given prefix, of the 5-bit words of
    [ripemd160(sha256(publicKey))]; an omitted prefix is [cosmos].  The
    result is a function of the two arguments, and the operation fails
    only when the encoder throws, with its exception.  With the
    libraries as [AddressLaws] has them, it returns for every public
    key under the default prefix and under every prefix of at most 51
    characters with codes from 33 to 126. *)
Theorem createAddress_bech32 (publicKey : Bytes) (prefix : string) :
  createAddress publicKey (Some prefix)
    = bech32Encode prefix
        (bech32ToWords (hashBytes "ripemd160" (hashBytes "sha256" publicKey)))
  /\ createAddress publicKey None = createAddress publicKey (Some "cosmos")
  /\ (AddressLaws C ->
        (bech32_prefix prefix = true -> String.length prefix <= 51 ->
           exists address, createAddress publicKey (Some prefix) = Return address)
        /\ exists address, createAddress publicKey None = Return address).
Proof.
  split; [reflexivity|]. split; [reflexivity|]. intros Laws.
  assert (forall p, bech32_prefix p = true -> String.length p <= 51 ->
            exists address, createAddress publicKey (Some p) = Return address)
    as Hreturns.
  { intros p Hp Hlen. unfold createAddress. rewrite !digest_update. simpl.
    apply bech32Encode_returns; [exact Hp| |apply bech32ToWords_5bit].
    rewrite bech32ToWords_length, ripemd160_length.
    change ((8 * 20 + 4) / 5) with 32. lia. }
  split; [apply Hreturns|].
  apply (Hreturns "cosmos"); [reflexivity | simpl; lia].
Qed.

End SignerFacts.

(** ** Signing, then verifying *)

Lemma standin_laws : CollaboratorLaws Standin.collaborators.
Proof.
  split.
  - intros hash key r. simpl.
    unfold Standin.sign, Standin.verify, Standin.publicKeyCreate.
    case_decide as Hkey; [discriminate|].
    intros [= <-]. exists (reverse key). split; [reflexivity|]. simpl.
    assert (reverse key <> []) as Hrev.
    { intros Hnil. apply (f_equal reverse) in Hnil.
      rewrite reverse_involutive in Hnil. contradiction. }
    case_decide as Hsig.
    { apply app_eq_nil in Hsig as [_ Hsig]. contradiction. }
    case_decide; [contradiction|].
    f_equal. apply bool_decide_eq_true. reflexivity.
  - intros bytes. apply String.list_byte_of_string_of_list_byte.
Qed.

Lemma standin_address_laws : AddressLaws Standin.collaborators.
Proof.
  split.
  - intros data. apply length_resize.
  - intros bytes. simpl. unfold Standin.toWords.
    rewrite length_fmap, length_resize. reflexivity.
  - intros bytes. simpl. unfold Standin.toWords.
    apply Forall_fmap, Forall_forall. intros b _. simpl.
    apply N.mod_upper_bound. discriminate.
  - intros prefix words Hprefix Hlen Hwords. simpl. unfold Standin.encode.
    replace (90 <? String.length prefix + 7 + length words) with false
      by (symmetry; apply Nat.ltb_ge; exact Hlen).
    rewrite Hprefix. simpl.
    replace (forallb (fun w => (w <? 32)%N) words) with true; [simpl; eauto|].
    symmetry. apply forallb_forall. intros w Hw.
    apply N.ltb_lt. rewrite List.Forall_forall in Hwords. apply Hwords, Hw.
Qed.

Section RoundTrip.
Context {C : Collaborators} {L : CollaboratorLaws C}.

(** The entry made from what the signer returned verifies against the
    digest that was signed. *)
Lemma new_entry_verifies (hash key publicKey : Bytes) (r : SignResult.t) :
  secp256k1Sign hash key = Return r ->
  secp256k1PublicKeyCreate key true = Return publicKey ->
  entry_verifies hash (signature_entry (SignResult.signature r) publicKey)
  = Return true.
Proof.
  intros Hsign Hkey. unfold entry_verifies, signature_entry. simpl.
  rewrite !base64_decode_encode.
  destruct (secp256k1_sign_verify _ _ _ Hsign) as (pub & Hpub & Hverify).
  rewrite Hkey in Hpub. injection Hpub as <-. exact Hverify.
Qed.

(** Once a key pair has signed, the answer of [verifyTx] is the answer
    of the verifier on the signatures that were already attached. *)
Lemma verifyTx_after_signTx
    (tx : TxOrStdTx) (meta : SignMeta.t) (keyPair : KeyPair.t) (stx : StdTx.t) :
  secp256k1PublicKeyCreate (KeyPair.privateKey keyPair) true
    = Return (KeyPair.publicKey keyPair) ->
  signTx tx meta keyPair = Return stx ->
  verifyTx stx meta
    = every (verifySignature (createSignMsg (as_Tx tx) meta)) (prior_signatures tx).
Proof.
  intros Hkey. rewrite signTx_unfold, createSignature_unfold.
  destruct (secp256k1Sign _ _) as [r|e] eqn:Hsign; [|discriminate].
  intros [= <-]. unfold verifyTx. simpl.
  rewrite verifySignatures_unfold.
  assert (every (entry_verifies (signDigest (createSignMsg (as_Tx tx) meta)))
            (prior_signatures tx
               ++ [signature_entry (SignResult.signature r) (KeyPair.publicKey keyPair)])
          = every (verifySignature (createSignMsg (as_Tx tx) meta))
              (prior_signatures tx)) as Hall.
  { rewrite every_app. simpl.
    rewrite (new_entry_verifies _ _ _ _ Hsign Hkey).
    change (verifySignature (createSignMsg (as_Tx tx) meta))
      with (entry_verifies (signDigest (createSignMsg (as_Tx tx) meta))).
    destruct (every _ (prior_signatures tx)) as [[]|]; reflexivity. }
  destruct (prior_signatures tx ++ _) eqn:Happ; [|exact Hall].
  destruct (prior_signatures tx); discriminate.
Qed.

(** C1 (amended): when the transaction is unsigned, or every signature
    it already carries verifies against the sign message built from it
    and the metadata, and the key pair holds the compressed public key
    of a private key the signer accepts, [signTx] returns a transaction
    that [verifyTx] accepts under the same metadata. *)
Theorem signTx_verifyTx
    (tx : TxOrStdTx) (meta : SignMeta.t) (keyPair : KeyPair.t) (r : SignResult.t) :
  secp256k1PublicKeyCreate (KeyPair.privateKey keyPair) true
    = Return (KeyPair.publicKey keyPair) ->
  secp256k1Sign (signDigest (createSignMsg (as_Tx tx) meta))
    (KeyPair.privateKey keyPair) = Return r ->
  Forall (fun s => verifySignature (createSignMsg (as_Tx tx) meta) s = Return true)
    (prior_signatures tx) ->
  exists stx,
    signTx tx meta keyPair = Return stx /\ verifyTx stx meta = Return true.
Proof.
  intros Hkey Hsign Hprior.
  assert (exists stx, signTx tx meta keyPair = Return stx) as [stx Hret].
  { rewrite signTx_unfold, createSignature_unfold, Hsign. eauto. }
  exists stx. split; [exact Hret|].
  rewrite (verifyTx_after_signTx tx meta keyPair stx Hkey Hret).
  apply every_true_Forall, Hprior.
Qed.

End RoundTrip.

(** ** The program run on the stand-ins *)

Section Runs.
Import Standin.

(** [alice] signs the unsigned [tx0]. *)
Lemma alice_signs_tx0 :
  @signTx collaborators (Unsigned tx0) meta0 alice = Return alice_signed.
Proof. vm_compute. reflexivity. Qed.

(** [bob] signs after [alice], under the same metadata: both signatures
    verify. *)
Lemma signTx_verifyTx_witness :
  exists stx,
    @signTx collaborators (Signed alice_signed) meta0 bob = Return stx
    /\ @verifyTx collaborators stx meta0 = Return true.
Proof.
  apply (@signTx_verifyTx collaborators standin_laws (Signed alice_signed) meta0 bob
           (SignResult.mk
              (@signDigest collaborators (@createSignMsg tx0 meta0)
                 ++ KeyPair.publicKey bob) 0)).
  - reflexivity.
  - vm_compute. reflexivity.
  - repeat constructor.
Defined.

(** C1, as stated, fails: [alice] signed [tx0] when the sequence number
    was 0 ([meta0]); [bob], whose public key is the image of his private
    key, signs the result when it is 1 ([meta1]).  [signTx] returns, and
    [verifyTx] with [meta1] rejects what it returned, because the
    signature of [alice] covers another digest. *)
Lemma signTx_verifyTx_counterexample :
  CollaboratorLaws collaborators
  /\ @signTx collaborators (Unsigned tx0) meta0 alice = Return alice_signed
  /\ @secp256k1PublicKeyCreate collaborators (KeyPair.privateKey bob) true
       = Return (KeyPair.publicKey bob)
  /\ exists stx,
       @signTx collaborators (Signed alice_signed) meta1 bob = Return stx
       /\ @verifyTx collaborators stx meta1 = Return false.
Proof.
  split; [exact standin_laws|].
  split; [exact alice_signs_tx0|].
  split; [reflexivity|].
  eexists. split; vm_compute; reflexivity.
Qed.

(** [bob] signs the transaction object at location 1 of [store0]: the
    result is a new object, and location 1 still holds what [alice]
    signed. *)
Lemma signTx_appends_witness :
  exists l' h',
    @Store.signTx collaborators 1 meta0 bob store0 = Some (Return (l', h'))
    /\ store0 !! l' = None
    /\ (forall k c, store0 !! k = Some c -> h' !! k = Some c)
    /\ Store.read_tx h' 1 = Some (Signed alice_signed).
Proof.
  destruct (@signTx_appends collaborators (Signed alice_signed) meta0 bob)
    as (_ & _ & _ & _ & Hstore).
  destruct (Hstore store0 1) as (l' & h' & Hrun & Hnew & _ & Hframe & Hread).
  - vm_compute. reflexivity.
  - exists l', h'. auto.
Defined.



(** A master key with a private key gives a key pair on the default
    path. *)
Lemma createKeyPairFromMasterKey_result_witness :
  @createKeyPairFromMasterKey collaborators (Some [Byte.x01; Byte.x02]) None
  = Return (KeyPair.mk
              ([Byte.x01; Byte.x02] ++ stringToBytes COSMOS_PATH)
              (reverse ([Byte.x01; Byte.x02] ++ stringToBytes COSMOS_PATH))).
Proof.
  destruct (@createKeyPairFromMasterKey_result collaborators
              (Some [Byte.x01; Byte.x02]) None) as (_ & _ & _ & Hreturn & _).
  apply (Hreturn (Some ([Byte.x01; Byte.x02] ++ stringToBytes COSMOS_PATH)));
    reflexivity.
Defined.

(** C6, as stated, fails at its own example: on a public-only master
    key the default path, whose first step is hardened, yields no
    private key, and key derivation fails; but the exception is the
    [TypeError] of [derivePath], thrown before the program looks for a
    private key, and not the error the program has for this case. *)
Lemma createKeyPairFromMasterKey_counterexample :
  @derivePath collaborators None COSMOS_PATH
  = Throw (TypeError "Missing private key for hardened child key")
  /\ @createKeyPairFromMasterKey collaborators None None
     = Throw (TypeError "Missing private key for hardened child key")
  /\ @createKeyPairFromMasterKey collaborators None None
     <> Throw (Error "could not derive private key").
Proof. repeat split; try (vm_compute; reflexivity). discriminate. Qed.

(** On a path without hardened step the derivation from a public-only
    key returns a node, the node has no private key, and the error is
    the one of the program. *)
Example createKeyPairFromMasterKey_public_only :
  @derivePath collaborators None "m/0/0" = Return None
  /\ @createKeyPairFromMasterKey collaborators None (Some "m/0/0")
     = Throw (Error "could not derive private key").
Proof. split; vm_compute; reflexivity. Qed.

(** The address of a 33-byte public key under the default prefix. *)
Lemma createAddress_bech32_witness :
  exists address, @createAddress collaborators compressed_key None = Return address.
Proof.
  destruct (@createAddress_bech32 collaborators compressed_key "cosmos")
    as (_ & _ & Hreturns).
  destruct (Hreturns standin_address_laws) as [_ Hdefault]. exact Hdefault.
Defined.

(** C7, as stated, fails: the prefix is part of the address, and bech32
    encodes no address of more than 90 characters.  Under a prefix of
    54 characters, all of them letters, a 33-byte public key has no
    address: the prefix, the separator, the 32 words of the digest and
    the 6 characters of the checksum make 93, the encoder throws, and
    the program catches nothing. *)
Lemma createAddress_bech32_counterexample :
  AddressLaws collaborators
  /\ length compressed_key = 33
  /\ bech32_prefix long_prefix = true
  /\ String.length long_prefix = 54
  /\ @createAddress collaborators compressed_key (Some long_prefix)
     = Throw (TypeError "Exceeds length limit").
Proof.
  split; [exact standin_address_laws|].
  repeat split; vm_compute; reflexivity.
Qed.

(** An unsigned and a signed transaction with the same [msg], [fee] and
    [memo]. *)
Lemma createSignMsg_ignores_signatures_witness :
  @createSignMsg (as_Tx (Unsigned tx0)) meta1
    = @createSignMsg (as_Tx (Signed alice_signed)) meta1.
Proof.
  apply (@createSignMsg_ignores_signatures collaborators
           (Unsigned tx0) (Signed alice_signed) meta1); reflexivity.
Defined.

(** The signature [alice] makes over the sign message of [tx0]. *)
Lemma createSignature_shape_witness :
  exists r : SignResult.t,
    @secp256k1Sign collaborators
      (@signDigest collaborators (@createSignMsg tx0 meta0))
      (KeyPair.privateKey alice) = Return r
    /\ hd_error (StdTx.signatures alice_signed)
         = Some {| StdSignature.signature :=
                     @bytesToBase64 collaborators (SignResult.signature r);
                   StdSignature.pub_key :=
                     {| PubKey.type := "tendermint/PubKeySecp256k1";
                        PubKey.value :=
                          @bytesToBase64 collaborators (KeyPair.publicKey alice) |} |}.
Proof.
  destruct (@createSignature_shape collaborators
              (@createSignMsg tx0 meta0) alice alice_signed_entry)
    as [r [Hsign Hshape]].
  - vm_compute. reflexivity.
  - exists r. split; [exact Hsign|]. simpl. f_equal. exact Hshape.
Defined.

End Runs.

(** ** Canonical JSON does not depend on the order of keys *)

Section KeyOrder.

Lemma ascii_compare_refl (c : Ascii.ascii) : Ascii.compare c c = Eq.
Proof. apply N.compare_refl. Qed.

Lemma key_lt_trans (k1 k2 k3 : string) :
  key_lt k1 k2 -> key_lt k2 k3 -> key_lt k1 k3.
Proof.
  unfold key_lt. revert k2 k3.
  induction k1 as [|x k1 IH]; intros [|y k2] [|z k3]; simpl; try congruence.
  destruct (Ascii.compare x y) eqn:Hxy; try discriminate;
    destruct (Ascii.compare y z) eqn:Hyz; try discriminate; intros H12 H23.
  - apply Ascii.compare_eq_iff in Hxy as ->.
    apply Ascii.compare_eq_iff in Hyz as ->.
    rewrite ascii_compare_refl. eauto.
  - apply Ascii.compare_eq_iff in Hxy as ->. rewrite Hyz. reflexivity.
  - apply Ascii.compare_eq_iff in Hyz as <-. rewrite Hxy. reflexivity.
  - unfold Ascii.compare in *. rewrite N.compare_lt_iff in Hxy, Hyz.
    assert (Ascii.N_of_ascii x < Ascii.N_of_ascii z)%N as Hxz by lia.
    apply N.compare_lt_iff in Hxz. rewrite Hxz. reflexivity.
Qed.

Lemma key_lt_asym (k1 k2 : string) : key_lt k1 k2 -> key_lt k2 k1 -> False.
Proof.
  unfold key_lt. intros H12 H21.
  rewrite String.compare_antisym, H21 in H12. discriminate.
Qed.

Lemma leb_true_key_lt (k1 k2 : string) :
  String.leb k1 k2 = true -> k1 <> k2 -> key_lt k1 k2.
Proof.
  unfold String.leb, key_lt. intros Hle Hne.
  destruct (String.compare k1 k2) eqn:Hc; try done.
  apply String.compare_eq_iff in Hc. done.
Qed.

Lemma leb_false_key_lt (k1 k2 : string) :
  String.leb k1 k2 = false -> key_lt k2 k1.
Proof.
  unfold String.leb, key_lt. intros Hle.
  rewrite String.compare_antisym.
  destruct (String.compare k1 k2); try discriminate. reflexivity.
Qed.

Lemma insert_field_perm (f : string * json) (fs : list (string * json)) :
  insert_field f fs ≡ₚ f :: fs.
Proof.
  induction fs as [|g fs IH]; simpl; [reflexivity|].
  destruct (String.leb f.1 g.1); [reflexivity|].
  rewrite IH. apply Permutation_swap.
Qed.

Lemma sort_fields_perm (fs : list (string * json)) : sort_fields fs ≡ₚ fs.
Proof.
  induction fs as [|f fs IH]; simpl; [reflexivity|].
  rewrite insert_field_perm, IH. reflexivity.
Qed.

Lemma insert_field_sorted (f : string * json) (fs : list (string * json)) :
  f.1 ∉ fs.*1 ->
  StronglySorted field_lt fs ->
  StronglySorted field_lt (insert_field f fs).
Proof.
  induction fs as [|g fs IH]; intros Hfresh Hsorted; simpl.
  - repeat constructor.
  - apply StronglySorted_inv in Hsorted as [Hsorted Hall].
    rewrite fmap_cons, not_elem_of_cons in Hfresh. destruct Hfresh as [Hne Hfresh].
    destruct (String.leb f.1 g.1) eqn:Hle.
    + assert (field_lt f g) as Hfg by (apply leb_true_key_lt; assumption).
      constructor; [constructor; assumption|].
      constructor; [exact Hfg|].
      eapply Forall_impl; [exact Hall|].
      intros g' Hg'. exact (key_lt_trans _ _ _ Hfg Hg').
    + constructor; [apply IH; assumption|].
      rewrite insert_field_perm. constructor; [|exact Hall].
      apply leb_false_key_lt, Hle.
Qed.

Lemma sort_fields_sorted (fs : list (string * json)) :
  NoDup fs.*1 -> StronglySorted field_lt (sort_fields fs).
Proof.
  induction fs as [|f fs IH]; simpl; [constructor|].
  rewrite NoDup_cons. intros [Hfresh Hnodup].
  apply insert_field_sorted; [|apply IH, Hnodup].
  rewrite sort_fields_perm. exact Hfresh.
Qed.

(** Distinct keys leave one sorted arrangement. *)
Lemma sort_fields_unique (fs gs : list (string * json)) :
  NoDup fs.*1 -> fs ≡ₚ gs -> sort_fields fs = sort_fields gs.
Proof.
  intros Hnodup Hperm.
  apply (StronglySorted_unique_strong field_lt).
  - intros f g _ _ Hfg Hgf. destruct (key_lt_asym _ _ Hfg Hgf).
  - apply sort_fields_sorted, Hnodup.
  - apply sort_fields_sorted. rewrite <- Hperm. exact Hnodup.
  - rewrite !sort_fields_perm. exact Hperm.
Qed.

Lemma map_ext_Forall2 {A B} (R : A -> A -> Prop) (f : A -> B) (xs ys : list A) :
  Forall (fun x => forall y, R x y -> f x = f y) xs ->
  Forall2 R xs ys ->
  map f xs = map f ys.
Proof.
  intros Hall Hrel. induction Hrel as [|x y xs ys Hxy _ IH]; [reflexivity|].
  apply Forall_cons in Hall as [Hx Hall].
  simpl. rewrite (Hx y Hxy), (IH Hall). reflexivity.
Qed.

Lemma toCanonicalJSON_keys (fs : list (string * json)) :
  (map (fun f => (f.1, toCanonicalJSON f.2)) fs).*1 = fs.*1.
Proof. induction fs as [|f fs IH]; [reflexivity|]. simpl. f_equal. exact IH. Qed.

Lemma toCanonicalJSON_same (a : json) :
  json_wf a -> forall v, same_json a v -> toCanonicalJSON a = toCanonicalJSON v.
Proof.
  induction a as [|c|n|s|items IH|fields IH] using json_induction;
    intros Hwf v Hsame; inversion Hsame; subst; try reflexivity.
  - inversion Hwf as [| | | |? Hitems|]; subst. simpl. f_equal.
    apply (map_ext_Forall2 same_json); [|assumption].
    rewrite Forall_forall in IH, Hitems |- *.
    intros x Hx y Hxy. apply IH; auto.
  - inversion Hwf as [| | | | |? Hnodup Hfields]; subst. simpl. f_equal.
    match goal with Hp : fields ≡ₚ ?l, Hf : Forall2 _ ?l _ |- _ =>
      rename l into gs'; rename Hp into Hperm; rename Hf into Hrel end.
    transitivity (sort_fields (map (fun f => (f.1, toCanonicalJSON f.2)) gs')).
    + apply sort_fields_unique.
      * rewrite toCanonicalJSON_keys. exact Hnodup.
      * apply Permutation_map, Hperm.
    + f_equal.
      apply (map_ext_Forall2 (fun f g => f.1 = g.1 /\ same_json f.2 g.2));
        [|exact Hrel].
      rewrite <- Hperm.
      rewrite Forall_forall in IH, Hfields |- *.
      intros f Hf g [Hkey Hval]. rewrite Hkey. f_equal. apply IH; auto.
Qed.

Lemma toCanonicalJSON_sorted (a : json) :
  json_wf a -> keys_sorted (toCanonicalJSON a).
Proof.
  induction a as [|c|n|s|items IH|fields IH] using json_induction;
    intros Hwf; try constructor.
  - inversion Hwf as [| | | |? Hitems|]; subst.
    rewrite Forall_forall in IH, Hitems |- *.
    intros x [y [<- Hy]]%list_elem_of_In%in_map_iff.
    apply list_elem_of_In in Hy. auto.
  - inversion Hwf as [| | | | |? Hnodup Hfields]; subst.
    apply sort_fields_sorted. rewrite toCanonicalJSON_keys. exact Hnodup.
  - inversion Hwf as [| | | | |? Hnodup Hfields]; subst.
    rewrite sort_fields_perm.
    rewrite Forall_forall in IH, Hfields |- *.
    intros f [g [<- Hg]]%list_elem_of_In%in_map_iff.
    apply list_elem_of_In in Hg. simpl. auto.
Qed.

(** *** The canonical text determines the value *)

(** The characters of a string. *)
Lemma chars_app (s1 s2 : string) :
  String.list_ascii_of_string (s1 +:+ s2)
  = String.list_ascii_of_string s1 ++ String.list_ascii_of_string s2.
Proof. induction s1 as [|c s1 IH]; simpl; [reflexivity | by rewrite IH]. Qed.

Lemma chars_inj (s1 s2 : string) :
  String.list_ascii_of_string s1 = String.list_ascii_of_string s2 -> s1 = s2.
Proof.
  intros H. rewrite <- (String.string_of_list_ascii_of_string s1),
    <- (String.string_of_list_ascii_of_string s2), H. reflexivity.
Qed.

Lemma pretty_N_char_digit (x : N) : is_digit (pretty_N_char x) = true.
Proof.
  unfold pretty_N_char.
  repeat (match goal with |- context [match ?y with _ => _ end] => destruct y end;
          try reflexivity).
Qed.

Lemma pretty_N_go_digits (x : N) (s : string) :
  exists ds, Forall (fun c => is_digit c = true) ds
    /\ String.list_ascii_of_string (pretty_N_go x s)
       = ds ++ String.list_ascii_of_string s
    /\ ((0 < x)%N -> ds <> []).
Proof.
  revert s. induction (N.lt_wf_0 x) as [x _ IH]; intros s.
  destruct (decide (0 < x)%N) as [Hx|Hx].
  - rewrite pretty_N_go_step by done.
    destruct (IH (x `div` 10)%N (N.div_lt x 10 Hx eq_refl)
                (String (pretty_N_char (x `mod` 10)) s)) as (ds & Hds & Heq & _).
    exists (ds ++ [pretty_N_char (x `mod` 10)%N]). split; [|split].
    + apply Forall_app. split; [exact Hds|]. repeat constructor.
      apply pretty_N_char_digit.
    + rewrite Heq. simpl. rewrite <- app_assoc. reflexivity.
    + intros _ Hnil. apply app_eq_nil in Hnil as [_ Hnil]. discriminate.
  - assert (x = 0%N) as -> by lia. exists []. split; [constructor|].
    split; [reflexivity | lia].
Qed.

Lemma digits_span (ds1 ds2 r1 r2 : list Ascii.ascii) :
  Forall (fun c => is_digit c = true) ds1 ->
  Forall (fun c => is_digit c = true) ds2 ->
  ends r1 -> ends r2 ->
  ds1 ++ r1 = ds2 ++ r2 -> ds1 = ds2 /\ r1 = r2.
Proof.
  intros H1. revert ds2. induction H1 as [|c ds1 Hc _ IH]; intros ds2 H2 E1 E2.
  - destruct H2 as [|d ds2 Hd _]; simpl; [auto|].
    intros ->. simpl in E1. congruence.
  - destruct H2 as [|d ds2 Hd H2]; simpl.
    + intros <-. simpl in E2. congruence.
    + intros [= -> Heq]. destruct (IH ds2 H2 E1 E2 Heq) as [-> ->]. auto.
Qed.

Lemma pretty_Npos_chars (p : positive) :
  exists ds, ds <> [] /\ Forall (fun c => is_digit c = true) ds
    /\ String.list_ascii_of_string (pretty (Npos p)) = ds.
Proof.
  unfold pretty, pretty_N. destruct (decide (Npos p = 0%N)) as [|_]; [discriminate|].
  destruct (pretty_N_go_digits (Npos p) "") as (ds & Hds & Heq & Hne).
  exists ds. rewrite Heq. simpl. rewrite app_nil_r. split; [apply Hne; lia|]. auto.
Qed.

Lemma pretty_Z_chars (n : Z) :
  exists sign ds,
    String.list_ascii_of_string (pretty n) = sign ++ ds
    /\ (sign = [] \/ sign = ["-"%char])
    /\ ds <> [] /\ Forall (fun c => is_digit c = true) ds.
Proof.
  destruct n as [|p|p].
  - exists [], ["0"%char]. repeat split; [auto | discriminate | repeat constructor].
  - destruct (pretty_Npos_chars p) as (ds & Hne & Hds & Heq).
    exists [], ds. split; [|auto].
    change (pretty (Z.pos p)) with (pretty (Npos p)). exact Heq.
  - destruct (pretty_Npos_chars p) as (ds & Hne & Hds & Heq).
    exists ["-"%char], ds. split; [|auto].
    change (pretty (Z.neg p)) with ("-" +:+ pretty (Npos p)).
    rewrite chars_app, Heq. reflexivity.
Qed.

Lemma pretty_Z_cancel (n1 n2 : Z) (r1 r2 : list Ascii.ascii) :
  ends r1 -> ends r2 ->
  String.list_ascii_of_string (pretty n1) ++ r1
  = String.list_ascii_of_string (pretty n2) ++ r2 ->
  n1 = n2 /\ r1 = r2.
Proof.
  intros E1 E2 Heq.
  destruct (pretty_Z_chars n1) as (s1 & ds1 & H1 & Hs1 & Hne1 & Hd1).
  destruct (pretty_Z_chars n2) as (s2 & ds2 & H2 & Hs2 & Hne2 & Hd2).
  assert (s1 ++ ds1 = s2 ++ ds2 /\ r1 = r2) as [Hsame Hr].
  { rewrite H1, H2, <- !app_assoc in Heq.
    destruct Hs1 as [-> | ->], Hs2 as [-> | ->]; simpl in *.
    - destruct (digits_span _ _ _ _ Hd1 Hd2 E1 E2 Heq) as [-> ->]. auto.
    - destruct Hd1 as [|c ds1 Hc _]; [congruence|].
      injection Heq as -> _. discriminate.
    - destruct Hd2 as [|c ds2 Hc _]; [congruence|].
      injection Heq as <- _. discriminate.
    - injection Heq as Heq.
      destruct (digits_span _ _ _ _ Hd1 Hd2 E1 E2 Heq) as [-> ->]. auto. }
  split; [|exact Hr].
  apply (inj pretty), chars_inj. rewrite H1, H2. exact Hsame.
Qed.

Lemma in_all_ascii (c : Ascii.ascii) : In c all_ascii.
Proof.
  rewrite <- (Ascii.ascii_nat_embedding c). apply in_map, in_seq.
  pose proof (Ascii.nat_ascii_bounded c). lia.
Qed.

Lemma is_prefix_app (p k : list Ascii.ascii) : is_prefix p (p ++ k) = true.
Proof.
  induction p as [|c p IH]; simpl; [reflexivity|].
  rewrite Ascii.eqb_refl, IH. reflexivity.
Qed.

Lemma echars_head (c : Ascii.ascii) :
  exists d rest, echars c = d :: rest /\ d <> "034"%char.
Proof.
  assert (forallb (fun c => match echars c with
                            | [] => false
                            | d :: _ => negb (Ascii.eqb d "034"%char)
                            end) all_ascii = true) as Hall
    by (vm_compute; reflexivity).
  rewrite forallb_forall in Hall. specialize (Hall c (in_all_ascii c)).
  destruct (echars c) as [|d rest]; [discriminate|].
  exists d, rest. split; [reflexivity|]. intros ->. discriminate.
Qed.

Lemma echars_cancel (c1 c2 : Ascii.ascii) (x y : list Ascii.ascii) :
  echars c1 ++ x = echars c2 ++ y -> c1 = c2 /\ x = y.
Proof.
  assert (forallb (fun c1 =>
            forallb (fun c2 => Ascii.eqb c1 c2
                               || negb (is_prefix (echars c1) (echars c2)))
              all_ascii) all_ascii = true) as Hall
    by (vm_compute; reflexivity).
  assert (forall a b, is_prefix (echars a) (echars b) = true -> a = b) as Hfree.
  { intros a b Hp. rewrite forallb_forall in Hall.
    specialize (Hall a (in_all_ascii a)). rewrite forallb_forall in Hall.
    specialize (Hall b (in_all_ascii b)). rewrite Hp in Hall.
    apply orb_true_iff in Hall as [Hab|]; [|discriminate].
    apply Ascii.eqb_eq, Hab. }
  intros Heq.
  assert (c1 = c2) as ->.
  { apply app_eq_inv in Heq as [(k & Hk & _)|(k & Hk & _)].
    - symmetry. apply Hfree. rewrite Hk. apply is_prefix_app.
    - apply Hfree. rewrite Hk. apply is_prefix_app. }
  split; [reflexivity|]. apply app_inv_head in Heq. exact Heq.
Qed.

Lemma escape_chars (c : Ascii.ascii) (s : string) :
  String.list_ascii_of_string (escape (String c s))
  = echars c ++ String.list_ascii_of_string (escape s).
Proof. simpl. apply chars_app. Qed.

Lemma escape_cancel (s1 s2 : string) (r1 r2 : list Ascii.ascii) :
  String.list_ascii_of_string (escape s1) ++ "034"%char :: r1
  = String.list_ascii_of_string (escape s2) ++ "034"%char :: r2 ->
  s1 = s2 /\ r1 = r2.
Proof.
  revert s2. induction s1 as [|c1 s1 IH]; intros [|c2 s2].
  - simpl. intros [= ->]. auto.
  - rewrite escape_chars. destruct (echars_head c2) as (d & rest & -> & Hd).
    simpl. intros [= <- _]. congruence.
  - rewrite escape_chars. destruct (echars_head c1) as (d & rest & -> & Hd).
    simpl. intros [= -> _]. congruence.
  - rewrite !escape_chars, <- !app_assoc. intros Heq.
    apply echars_cancel in Heq as [-> Heq].
    destruct (IH _ Heq) as [-> ->]. auto.
Qed.

Lemma quote_chars (s : string) (r : list Ascii.ascii) :
  String.list_ascii_of_string (quote s) ++ r
  = "034"%char :: String.list_ascii_of_string (escape s) ++ "034"%char :: r.
Proof. unfold quote. simpl. rewrite chars_app, <- app_assoc. reflexivity. Qed.

Lemma quote_cancel (s1 s2 : string) (r1 r2 : list Ascii.ascii) :
  String.list_ascii_of_string (quote s1) ++ r1
  = String.list_ascii_of_string (quote s2) ++ r2 ->
  s1 = s2 /\ r1 = r2.
Proof. rewrite !quote_chars. intros [= Heq]. apply escape_cancel, Heq. Qed.

Lemma join_comma_tail (close : Ascii.ascii) (p : string) (ps : list string)
    (r : list Ascii.ascii) :
  String.list_ascii_of_string (join_comma (p :: ps)) ++ close :: r
  = String.list_ascii_of_string p
      ++ tail_chars close (map String.list_ascii_of_string ps) r.
Proof.
  unfold join_comma. revert p. induction ps as [|q ps IH]; intros p; simpl.
  - reflexivity.
  - rewrite IH, !chars_app, <- app_assoc. reflexivity.
Qed.

Lemma bracketed_chars (open close : Ascii.ascii) (parts : list string)
    (r : list Ascii.ascii) :
  String.list_ascii_of_string
    (String open "" +:+ join_comma parts +:+ String close "") ++ r
  = open :: seq_chars close (map String.list_ascii_of_string parts) r.
Proof.
  assert (forall body,
            String.list_ascii_of_string
              (String open "" +:+ body +:+ String close "") ++ r
            = open :: String.list_ascii_of_string body ++ close :: r) as Hbody.
  { intros body. rewrite !chars_app, <- !app_assoc. reflexivity. }
  rewrite Hbody. f_equal.
  destruct parts as [|p ps]; [reflexivity|]. apply join_comma_tail.
Qed.

Section Sequences.
Context {E : Type} (render : E -> list Ascii.ascii) (close : Ascii.ascii).
Hypothesis close_not_start : value_start close = false.
Hypothesis close_not_comma : close <> ","%char.
Hypothesis render_head :
  forall y, exists c rest, render y = c :: rest /\ value_start c = true.

Lemma ends_tail (parts : list (list Ascii.ascii)) (r : list Ascii.ascii) :
  ends (tail_chars close parts r).
Proof.
  destruct parts; simpl; [|reflexivity].
  unfold value_start in close_not_start.
  apply orb_false_iff in close_not_start as [? _]. assumption.
Qed.

Lemma tail_cancel (l1 : list E) :
  Forall (cancels render) l1 ->
  forall l2 r1 r2,
    tail_chars close (map render l1) r1 = tail_chars close (map render l2) r2 ->
    l1 = l2 /\ r1 = r2.
Proof.
  induction 1 as [|x l1 Hx _ IH]; intros [|y l2] r1 r2; simpl.
  - intros [= ->]. auto.
  - intros [= Hc _]. contradiction.
  - intros [= Hc _]. symmetry in Hc. contradiction.
  - intros [= Heq]. apply Hx in Heq as [-> Heq]; try apply ends_tail.
    destruct (IH _ _ _ Heq) as [-> ->]. auto.
Qed.

Lemma seq_cancel (l1 : list E) :
  Forall (cancels render) l1 ->
  forall l2 r1 r2,
    seq_chars close (map render l1) r1 = seq_chars close (map render l2) r2 ->
    l1 = l2 /\ r1 = r2.
Proof.
  intros Hall [|y l2] r1 r2; destruct Hall as [|x l1 Hx Hall]; simpl.
  - intros [= ->]. auto.
  - destruct (render_head x) as (c & rest & -> & Hc). simpl.
    intros [= -> _]. congruence.
  - destruct (render_head y) as (c & rest & -> & Hc). simpl.
    intros [= <- _]. congruence.
  - intros Heq. apply Hx in Heq as [-> Heq]; try apply ends_tail.
    destruct (tail_cancel _ Hall _ _ _ Heq) as [-> ->]. auto.
Qed.

End Sequences.

Lemma stringify_head (v : json) :
  exists c rest,
    String.list_ascii_of_string (stringify v) = c :: rest /\ value_start c = true.
Proof.
  destruct v as [|[]|n|s|items|fields]; try (simpl; eauto; fail).
  - destruct (pretty_Z_chars n) as (sign & ds & Heq & Hsign & Hne & Hds).
    simpl. rewrite Heq. destruct Hsign as [-> | ->].
    + destruct Hds as [|c ds Hc _]; [congruence|]. exists c, ds.
      split; [reflexivity|]. unfold value_start. rewrite Hc. reflexivity.
    + simpl. eauto.
Qed.

Lemma stringify_arr_chars (items : list json) (r : list Ascii.ascii) :
  render_value (JArr items) ++ r
  = "["%char :: seq_chars "]"%char (map render_value items) r.
Proof.
  unfold render_value. simpl stringify.
  rewrite (bracketed_chars "["%char "]"%char), map_map. reflexivity.
Qed.

Lemma stringify_obj_chars (fields : list (string * json)) (r : list Ascii.ascii) :
  render_value (JObj fields) ++ r
  = "{"%char :: seq_chars "}"%char (map render_field fields) r.
Proof.
  unfold render_value. simpl stringify.
  rewrite (bracketed_chars "{"%char "}"%char), map_map. reflexivity.
Qed.

Lemma render_field_head (f : string * json) :
  exists c rest, render_field f = c :: rest /\ value_start c = true.
Proof.
  unfold render_field, quote. simpl. eexists _, _. split; reflexivity.
Qed.

Lemma render_field_cancels (f : string * json) :
  cancels render_value f.2 -> cancels render_field f.
Proof.
  intros Hv [k2 v2] r1 r2 E1 E2. destruct f as [k1 v1].
  unfold render_field. cbn [fst snd] in *.
  rewrite !chars_app, <- !app_assoc. intros Heq.
  apply quote_cancel in Heq as [-> Heq]. simpl in Heq. injection Heq as Heq.
  destruct (Hv v2 r1 r2 E1 E2 Heq) as [-> ->]. auto.
Qed.

Lemma pretty_Z_first (n : Z) (r : list Ascii.ascii) :
  exists c rest,
    String.list_ascii_of_string (pretty n) ++ r = c :: rest
    /\ (c = "-"%char \/ is_digit c = true).
Proof.
  destruct (pretty_Z_chars n) as (sign & ds & Heq & Hsign & Hne & Hds).
  rewrite Heq. destruct Hsign as [-> | ->]; simpl.
  - destruct Hds as [|c ds Hc _]; [congruence|]. simpl. eauto.
  - eauto.
Qed.

(** Texts of values of different kinds start with different characters. *)
Ltac clash Heq :=
  unfold render_value in Heq; cbn [stringify] in Heq;
  first
    [ match type of Heq with
      | context [String.list_ascii_of_string (pretty ?n) ++ ?r] =>
          let c := fresh "c" in
          let rest := fresh "rest" in
          let Hc := fresh "Hc" in
          let Hk := fresh "Hk" in
          let Hh := fresh "Hh" in
          destruct (pretty_Z_first n r) as (c & rest & Hc & Hk);
          rewrite Hc in Heq; simpl in Heq; injection Heq as Hh _;
          destruct Hk as [Hk|Hk]; subst c;
          discriminate Hk
      end
    | simpl in Heq; discriminate Heq ].

Lemma stringify_cancel (v : json) : cancels render_value v.
Proof.
  induction v as [|b|n|s|items IH|fields IH] using json_induction;
    intros v2 r1 r2 E1 E2 Heq.
  - destruct v2 as [|[]|n2|s2|items2|fields2]; try (exfalso; clash Heq; fail).
    injection Heq as ->. auto.
  - destruct b, v2 as [|[]|n2|s2|items2|fields2]; try (exfalso; clash Heq; fail).
    + injection Heq as ->. auto.
    + injection Heq as ->. auto.
  - destruct v2 as [|[]|n2|s2|items2|fields2]; try (exfalso; clash Heq; fail).
    destruct (pretty_Z_cancel n n2 r1 r2 E1 E2 Heq) as [-> ->]. auto.
  - destruct v2 as [|[]|n2|s2|items2|fields2]; try (exfalso; clash Heq; fail).
    destruct (quote_cancel s s2 r1 r2 Heq) as [-> ->]. auto.
  - destruct v2 as [|[]|n2|s2|items2|fields2]; try (exfalso; clash Heq; fail).
    rewrite !stringify_arr_chars in Heq. injection Heq as Heq.
    apply (seq_cancel render_value "]"%char) in Heq as [-> ->];
      [auto | reflexivity | discriminate | apply stringify_head | exact IH].
  - destruct v2 as [|[]|n2|s2|items2|fields2]; try (exfalso; clash Heq; fail).
    rewrite !stringify_obj_chars in Heq. injection Heq as Heq.
    apply (seq_cancel render_field "}"%char) in Heq as [-> ->];
      [auto | reflexivity | discriminate | apply render_field_head |].
    eapply Forall_impl; [exact IH|]. intros f. apply render_field_cancels.
Qed.

(** The text of a JSON value determines the value. *)
Lemma stringify_inj (v1 v2 : json) : stringify v1 = stringify v2 -> v1 = v2.
Proof.
  intros Heq.
  destruct (stringify_cancel v1 v2 [] [] I I) as [-> _]; [|reflexivity].
  unfold render_value. rewrite Heq. reflexivity.
Qed.

Lemma toCanonicalJSON_same_input (a : json) : same_json a (toCanonicalJSON a).
Proof.
  induction a as [|c|n|s|items IH|fields IH] using json_induction;
    try constructor.
  - simpl. induction IH; constructor; assumption.
  - simpl.
    destruct (Permutation_map_inv (fun f => (f.1, toCanonicalJSON f.2)) fields
                (sort_fields_perm _)) as (gs' & Hsorted & Hperm).
    rewrite Hsorted. apply (same_obj fields gs'); [exact Hperm|].
    assert (Forall (fun f => same_json f.2 (toCanonicalJSON f.2)) gs') as IH'
      by (rewrite <- Hperm; exact IH).
    clear -IH'. induction IH'; constructor; auto.
Qed.

Lemma Forall2_flip_with {A} (P : A -> Prop) (R R' : A -> A -> Prop)
    (xs ys : list A) :
  (forall x y, P x -> R x y -> R' y x) ->
  Forall P xs -> Forall2 R xs ys -> Forall2 R' ys xs.
Proof.
  intros Himp HP Hrel. revert HP.
  induction Hrel as [|x y xs ys Hxy _ IH]; intros HP; constructor.
  - apply Forall_cons in HP as [Hx _]. auto.
  - apply Forall_cons in HP as [_ HP]. auto.
Qed.

Lemma same_json_sym (a : json) : forall b, same_json a b -> same_json b a.
Proof.
  induction a as [|c|n|s|items IH|fields IH] using json_induction;
    intros b Hab; inversion Hab; subst; try constructor.
  - eapply Forall2_flip_with; [|exact IH|eassumption]. auto.
  - match goal with Hp : fields ≡ₚ ?l, Hf : Forall2 _ ?l _ |- _ =>
      rename l into gs'; rename Hp into Hperm; rename Hf into Hrel end.
    symmetry in Hperm.
    destruct (Permutation_Forall2 Hperm Hrel) as (gs2 & Hperm2 & Hrel2).
    apply (same_obj _ gs2); [exact Hperm2|].
    eapply Forall2_flip_with; [|exact IH|exact Hrel2].
    intros f g Hf [Hk Hv]. split; [congruence | auto].
Qed.

Lemma Forall2_trans_with {A} (P : A -> Prop) (R : A -> A -> Prop)
    (xs ys zs : list A) :
  (forall x y z, P x -> R x y -> R y z -> R x z) ->
  Forall P xs -> Forall2 R xs ys -> Forall2 R ys zs -> Forall2 R xs zs.
Proof.
  intros Htrans HP Hxy. revert zs HP.
  induction Hxy as [|x y xs ys Hxy _ IH]; intros zs HP Hyz;
    inversion Hyz; subst; constructor.
  - apply Forall_cons in HP as [Hx _]. eauto.
  - apply Forall_cons in HP as [_ HP]. auto.
Qed.

Lemma same_json_trans (a : json) :
  forall b c, same_json a b -> same_json b c -> same_json a c.
Proof.
  induction a as [|x|n|s|items IH|fields IH] using json_induction;
    intros b c Hab Hbc; inversion Hab; subst; inversion Hbc; subst;
    try constructor.
  - eapply Forall2_trans_with; [|exact IH|eassumption|eassumption]. eauto.
  - match goal with
    | Hp1 : fields ≡ₚ ?l1, Hf1 : Forall2 _ ?l1 ?m,
      Hp2 : ?m ≡ₚ ?l2, Hf2 : Forall2 _ ?l2 _ |- _ =>
        rename l1 into gs'; rename m into gs; rename l2 into hs';
        rename Hp1 into Hperm1; rename Hf1 into Hrel1;
        rename Hp2 into Hperm2; rename Hf2 into Hrel2
    end.
    assert (Forall2 (flip same_field) gs gs') as Hflip
      by (apply Forall2_flip; exact Hrel1).
    destruct (Permutation_Forall2 Hperm2 Hflip) as (xs & Hpermx & Hrelx).
    apply Forall2_flip in Hrelx.
    apply (same_obj _ xs); [etransitivity; eassumption|].
    assert (Forall (fun f => forall b c,
                      same_json f.2 b -> same_json b c -> same_json f.2 c) xs)
      as IHx by (rewrite <- Hpermx, <- Hperm1; exact IH).
    eapply (Forall2_trans_with _ _ xs hs'); [|exact IHx|exact Hrelx|exact Hrel2].
    intros f g h Hf [Hk1 Hv1] [Hk2 Hv2]. split; [congruence | eauto].
Qed.

End KeyOrder.

Lemma same_json_refl (a : json) : same_json a a.
Proof.
  induction a as [|c|n|s|items IH|fields IH] using json_induction;
    try constructor.
  - induction IH; constructor; assumption.
  - apply (same_obj fields fields fields); [reflexivity|].
    induction IH; constructor; auto.
Qed.

Lemma stringToBytes_inj (s1 s2 : string) :
  stringToBytes s1 = stringToBytes s2 -> s1 = s2.
Proof.
  unfold stringToBytes. intros H.
  rewrite <- (String.string_of_list_byte_of_string s1),
    <- (String.string_of_list_byte_of_string s2), H. reflexivity.
Qed.

(** Values with the same canonical bytes have the same canonical form,
    and hold the same content up to the order of keys. *)
Lemma toCanonicalJSONBytes_inj (c a : json) :
  toCanonicalJSONBytes c = toCanonicalJSONBytes a ->
  toCanonicalJSON c = toCanonicalJSON a /\ same_json c a.
Proof.
  intros H. apply stringToBytes_inj, stringify_inj in H. split; [exact H|].
  apply (same_json_trans c (toCanonicalJSON c) a).
  - apply toCanonicalJSON_same_input.
  - rewrite H. apply same_json_sym, toCanonicalJSON_same_input.
Qed.

Section Canonicalizer.
Context {C : Collaborators}.

(** C5: two JSON values (sign messages among them) that are
    structurally equal and differ only in the insertion order of object
    keys have the same canonical bytes, so the signer and the verifier
    treat them alike.  The canonical form of a value holds what the
    value holds, up to the order of keys: every field with its key and
    its value, every array element at its position; its keys are sorted
    lexicographically at every nesting level.  The bytes determine the
    value: a value with the canonical bytes of [a] has the canonical
    form of [a] and differs from [a] in the order of keys only.  The
    text lists fields and elements in the order of the canonical
    form. *)
Theorem toCanonicalJSONBytes_key_order (a b : json) :
  json_wf a ->
  same_json a b ->
  toCanonicalJSONBytes a = toCanonicalJSONBytes b
  /\ keys_sorted (toCanonicalJSON a)
  /\ keys_sorted (toCanonicalJSON b)
  /\ same_json a (toCanonicalJSON a)
  /\ same_json b (toCanonicalJSON b)
  /\ (forall c,
        toCanonicalJSONBytes c = toCanonicalJSONBytes a ->
        toCanonicalJSON c = toCanonicalJSON a /\ same_json c a)
  /\ (forall items, toCanonicalJSON (JArr items) = JArr (map toCanonicalJSON items))
  /\ (forall items,
        stringify (JArr items) = "[" +:+ join_comma (map stringify items) +:+ "]")
  /\ (forall fields,
        stringify (JObj fields)
        = "{" +:+ join_comma
                    (map (fun f => quote f.1 +:+ ":" +:+ stringify f.2) fields)
              +:+ "}")
  /\ (forall (m1 m2 : StdSignMsg.t) (key sig pub : Bytes),
        StdSignMsg.to_json m1 = a ->
        StdSignMsg.to_json m2 = b ->
        createSignatureBytes m1 key = createSignatureBytes m2 key
        /\ verifySignatureBytes m1 sig pub = verifySignatureBytes m2 sig pub).
Proof.
  intros Hwf Hsame.
  pose proof (toCanonicalJSON_same a Hwf b Hsame) as Heq.
  assert (toCanonicalJSONBytes a = toCanonicalJSONBytes b) as Hbytes.
  { unfold toCanonicalJSONBytes, toCanonicalJSONString. rewrite Heq. reflexivity. }
  split; [exact Hbytes|].
  split; [apply toCanonicalJSON_sorted, Hwf|].
  split; [rewrite <- Heq; apply toCanonicalJSON_sorted, Hwf|].
  split; [apply toCanonicalJSON_same_input|].
  split; [apply toCanonicalJSON_same_input|].
  split; [intros c Hc; apply toCanonicalJSONBytes_inj in Hc; exact Hc|].
  split; [reflexivity|].
  split; [reflexivity|].
  split; [reflexivity|].
  intros m1 m2 key sig pub <- <-.
  unfold createSignatureBytes, verifySignatureBytes. rewrite Hbytes.
  split; reflexivity.
Qed.

End Canonicalizer.

(** The canonical text of the sign message of [tx0_reordered] under
    [meta0]: the keys of the fee come out sorted. *)
Example toCanonicalJSONString_tx0_reordered :
  toCanonicalJSONString
    (StdSignMsg.to_json (createSignMsg Standin.tx0_reordered Standin.meta0))
  = "{" +:+ quote "account_number" +:+ ":" +:+ quote "0"
    +:+ "," +:+ quote "chain_id" +:+ ":" +:+ quote "test-chain"
    +:+ "," +:+ quote "fee" +:+ ":{" +:+ quote "amount" +:+ ":[],"
                                    +:+ quote "gas" +:+ ":" +:+ quote "200000" +:+ "}"
    +:+ "," +:+ quote "memo" +:+ ":" +:+ quote ""
    +:+ "," +:+ quote "msgs" +:+ ":[]"
    +:+ "," +:+ quote "sequence" +:+ ":" +:+ quote "0" +:+ "}".
Proof. vm_compute. reflexivity. Qed.

(** The sign messages of [tx0] and of [tx0_reordered]. *)
Lemma toCanonicalJSONBytes_key_order_witness :
  toCanonicalJSONBytes (StdSignMsg.to_json (createSignMsg Standin.tx0 Standin.meta0))
  = toCanonicalJSONBytes
      (StdSignMsg.to_json (createSignMsg Standin.tx0_reordered Standin.meta0)).
Proof.
  apply (@toCanonicalJSONBytes_key_order Standin.collaborators).
  - constructor; [compute_done|]. repeat constructor; compute_done.
  - simpl. eapply same_obj; [reflexivity|].
    repeat (constructor; [split; [reflexivity|]; try apply same_json_refl|]);
      [|constructor].
    eapply same_obj; [apply Permutation_swap|].
    repeat constructor.
Defined.

(** * Further properties: wallets *)

Section WalletFacts.
Context {C : Collaborators} {M : MnemonicCollaborators C}.

Lemma createWalletFromMasterKey_unfold
    (masterKey : BIP32Interface) (prefix path : option string) :
  createWalletFromMasterKey masterKey prefix path =
  match createKeyPairFromMasterKey masterKey path with
  | Return kp =>
      match createAddress (KeyPair.publicKey kp) prefix with
      | Return address =>
          Return (Wallet.mk address (KeyPair.privateKey kp) (KeyPair.publicKey kp))
      | Throw e => Throw e
      end
  | Throw e => Throw e
  end.
Proof.
  unfold createWalletFromMasterKey.
  replace (createKeyPairFromMasterKey masterKey (Some (default COSMOS_PATH path)))
    with (createKeyPairFromMasterKey masterKey path) by (destruct path; reflexivity).
  destruct (createKeyPairFromMasterKey masterKey path) as [kp|e]; [|reflexivity].
  simpl.
  replace (createAddress (KeyPair.publicKey kp) (Some (default COSMOS_PREFIX prefix)))
    with (createAddress (KeyPair.publicKey kp) prefix) by (destruct prefix; reflexivity).
  destruct (createAddress (KeyPair.publicKey kp) prefix); reflexivity.
Qed.

(** A key pair that is returned comes from a node with a private key,
    and holds the compressed public key of that private key. *)
Lemma createKeyPairFromMasterKey_Return
    (masterKey : BIP32Interface) (path : option string) (kp : KeyPair.t) :
  createKeyPairFromMasterKey masterKey path = Return kp ->
  (exists node,
      derivePath masterKey (default COSMOS_PATH path) = Return node
      /\ privateKey node = Some (KeyPair.privateKey kp))
  /\ secp256k1PublicKeyCreate (KeyPair.privateKey kp) true
     = Return (KeyPair.publicKey kp).
Proof.
  unfold createKeyPairFromMasterKey.
  destruct (derivePath masterKey (default COSMOS_PATH path)) as [node|e];
    [|discriminate]. simpl.
  destruct (privateKey node) as [key|] eqn:Hkey; [|discriminate].
  destruct (secp256k1PublicKeyCreate key true) as [pub|e] eqn:Hpub; [|discriminate].
  intros [= <-]. simpl. split; [exists node|]; auto.
Qed.

(** X1: a wallet made from a master key holds the private key of the
    node the path leads to, the compressed public key computed from
    that private key, and the address of that public key under the
    prefix; its keys are the key pair [createKeyPairFromMasterKey]
    returns.  No wallet is made exactly when the key derivation throws
    or the address of the derived public key cannot be encoded, and
    the exception is then the one of that step. *)
Theorem createWalletFromMasterKey_wallet
    (masterKey : BIP32Interface) (prefix path : option string) :
  (forall w : Wallet.t,
     createWalletFromMasterKey masterKey prefix path = Return w ->
     (exists node,
         derivePath masterKey (default COSMOS_PATH path) = Return node
         /\ privateKey node = Some (Wallet.privateKey w))
     /\ secp256k1PublicKeyCreate (Wallet.privateKey w) true
          = Return (Wallet.publicKey w)
     /\ createAddress (Wallet.publicKey w) prefix = Return (Wallet.address w)
     /\ createKeyPairFromMasterKey masterKey path = Return (Wallet_as_KeyPair w))
  /\ (forall e : exn,
        createWalletFromMasterKey masterKey prefix path = Throw e <->
        createKeyPairFromMasterKey masterKey path = Throw e
        \/ exists kp,
             createKeyPairFromMasterKey masterKey path = Return kp
             /\ createAddress (KeyPair.publicKey kp) prefix = Throw e).
Proof.
  rewrite createWalletFromMasterKey_unfold.
  destruct (createKeyPairFromMasterKey masterKey path) as [kp|e0] eqn:Hkp.
  2: { split; [discriminate|]. intros e. split.
       - intros [= <-]. left. reflexivity.
       - intros [[= <-]|(kp & Hkp' & _)]; [reflexivity | discriminate]. }
  destruct (createKeyPairFromMasterKey_Return _ _ _ Hkp) as [Hnode Hpub].
  destruct (createAddress (KeyPair.publicKey kp) prefix) as [address|e1] eqn:Haddr.
  - split.
    + intros w [= <-]. simpl. destruct kp. auto.
    + intros e. split; [discriminate|].
      intros [Hthrow|(kp' & [= <-] & Hthrow)]; [discriminate|]. congruence.
  - split; [discriminate|]. intros e. split.
    + intros [= <-]. right. exists kp. auto.
    + intros [Hthrow|(kp' & [= <-] & Hthrow)]; [discriminate|]. congruence.
Qed.

(** X2: a wallet made from a mnemonic is the wallet
    [createWalletFromMasterKey] makes from the master key of the seed of
    the mnemonic: both library calls returned, and the wallet holds the
    compressed public key of its private key and the address of that
    public key. *)
Theorem createWalletFromMnemonic_result
    (mnemonic : string) (prefix path : option string) (w : Wallet.t) :
  createWalletFromMnemonic mnemonic prefix path = Return w ->
  exists seed masterKey,
    mnemonicToSeedSync mnemonic = Return seed
    /\ fromSeed seed = Return masterKey
    /\ createMasterKeyFromMnemonic mnemonic = Return masterKey
    /\ createWalletFromMasterKey masterKey prefix path = Return w
    /\ secp256k1PublicKeyCreate (Wallet.privateKey w) true
         = Return (Wallet.publicKey w)
    /\ createAddress (Wallet.publicKey w) prefix = Return (Wallet.address w).
Proof.
  assert (forall masterKey,
            createWalletFromMasterKey masterKey
              (Some (default COSMOS_PREFIX prefix)) (Some (default COSMOS_PATH path))
            = createWalletFromMasterKey masterKey prefix path) as Hdefault.
  { intros masterKey. destruct prefix, path; reflexivity. }
  unfold createWalletFromMnemonic, createMasterKeyFromMnemonic.
  destruct (mnemonicToSeedSync mnemonic) as [seed|e0]; [|discriminate]. simpl.
  destruct (fromSeed seed) as [masterKey|e1] eqn:Hmaster; [|discriminate]. simpl.
  rewrite Hdefault. intros Hw. exists seed, masterKey.
  split; [reflexivity|]. split; [exact Hmaster|]. split; [reflexivity|].
  split; [exact Hw|].
  rewrite createWalletFromMasterKey_unfold in Hw.
  destruct (createKeyPairFromMasterKey masterKey path) as [kp|e] eqn:Hkp;
    [|discriminate].
  destruct (createKeyPairFromMasterKey_Return _ _ _ Hkp) as [_ Hpub].
  destruct (createAddress (KeyPair.publicKey kp) prefix) as [address|e] eqn:Haddr;
    [|discriminate].
  injection Hw as <-. simpl. auto.
Qed.

End WalletFacts.

(** * Further properties: signing and verifying *)

Lemma every_replicate {A} (f : A -> result bool) (n : nat) (x : A) :
  every f (replicate (S n) x) = f x.
Proof.
  induction n as [|n IH].
  - simpl. destruct (f x) as [[]|]; reflexivity.
  - change (replicate (S (S n)) x) with (x :: replicate (S n) x).
    cbn [every]. rewrite IH. destruct (f x) as [[]|]; reflexivity.
Qed.

Section VerifierFacts.
Context {C : Collaborators}.

Lemma verifySignatures_nonempty (signMsg : StdSignMsg.t) (sigs : list StdSignature.t) :
  sigs <> [] ->
  verifySignatures signMsg sigs = every (verifySignature signMsg) sigs.
Proof. destruct sigs; [congruence | reflexivity]. Qed.

Lemma verifySignatures_true (signMsg : StdSignMsg.t) (sigs : list StdSignature.t) :
  verifySignatures signMsg sigs = Return true <->
  sigs <> [] /\ Forall (fun s => verifySignature signMsg s = Return true) sigs.
Proof.
  destruct sigs as [|s sigs].
  - split; [discriminate | intros [[] _]; reflexivity].
  - rewrite verifySignatures_nonempty, every_true_Forall by discriminate.
    split; [intros H; split; [discriminate | exact H] | tauto].
Qed.

Lemma verifySignatures_returns (signMsg : StdSignMsg.t) (sigs : list StdSignature.t) :
  Forall (fun s => exists b, verifySignature signMsg s = Return b) sigs ->
  exists b, verifySignatures signMsg sigs = Return b.
Proof.
  intros Hall. destruct sigs as [|s sigs]; [exists false; reflexivity|].
  rewrite verifySignatures_nonempty by discriminate.
  apply every_returns, Hall.
Qed.

(** X3: whether [verifySignatures], and so [verifyTx], accepts a list of
    signatures does not depend on the order in which they are listed;
    and when the library returns an answer on every entry, the whole
    answer, [true] or [false], is the same in every order. *)
Theorem verifySignatures_Permutation
    (signMsg : StdSignMsg.t) (sigs sigs' : list StdSignature.t) :
  sigs ≡ₚ sigs' ->
  (verifySignatures signMsg sigs = Return true
     <-> verifySignatures signMsg sigs' = Return true)
  /\ (Forall (fun s => exists b, verifySignature signMsg s = Return b) sigs ->
        verifySignatures signMsg sigs = verifySignatures signMsg sigs')
  /\ (forall (tx : Tx.t) (meta : SignMeta.t),
        (verifyTx (StdTx.mk tx sigs) meta = Return true
           <-> verifyTx (StdTx.mk tx sigs') meta = Return true)
        /\ (Forall (fun s => exists b,
                       verifySignature (createSignMsg tx meta) s = Return b) sigs ->
              verifyTx (StdTx.mk tx sigs) meta = verifyTx (StdTx.mk tx sigs') meta)).
Proof.
  intros Hperm.
  assert (forall m,
            verifySignatures m sigs = Return true
            <-> verifySignatures m sigs' = Return true) as Htrue.
  { intros m. rewrite !verifySignatures_true.
    split; intros [Hne Hall]; split.
    - intros ->. apply Permutation_nil_r in Hperm. congruence.
    - rewrite <- Hperm. exact Hall.
    - intros ->. apply Permutation_nil in Hperm. congruence.
    - rewrite Hperm. exact Hall. }
  assert (forall m,
            Forall (fun s => exists b, verifySignature m s = Return b) sigs ->
            verifySignatures m sigs = verifySignatures m sigs') as Hsame.
  { intros m Hall.
    destruct (verifySignatures_returns m sigs Hall) as [b Hb].
    assert (Forall (fun s => exists b, verifySignature m s = Return b) sigs')
      as Hall' by (rewrite <- Hperm; exact Hall).
    destruct (verifySignatures_returns m sigs' Hall') as [b' Hb'].
    rewrite Hb, Hb'. specialize (Htrue m). rewrite Hb, Hb' in Htrue.
    destruct b, b'; try reflexivity.
    - destruct Htrue as [Htrue _]. specialize (Htrue eq_refl). discriminate.
    - destruct Htrue as [_ Htrue]. specialize (Htrue eq_refl). discriminate. }
  split; [apply Htrue|]. split; [apply Hsame|].
  intros tx meta. split; [apply Htrue | apply Hsame].
Qed.

(** X4: two lists of signatures, neither empty, verify together exactly
    when each of them verifies: the answer for the concatenation is the
    conjunction of the two answers, the second list being looked at
    only when the first verifies. *)
Theorem verifySignatures_app
    (signMsg : StdSignMsg.t) (sigs1 sigs2 : list StdSignature.t) :
  sigs1 <> [] ->
  sigs2 <> [] ->
  verifySignatures signMsg (sigs1 ++ sigs2)
  = match verifySignatures signMsg sigs1 with
    | Return true => verifySignatures signMsg sigs2
    | Return false => Return false
    | Throw e => Throw e
    end.
Proof.
  intros H1 H2. rewrite !verifySignatures_nonempty; try assumption.
  - apply every_app.
  - destruct sigs1; [congruence | discriminate].
Qed.

(** X5: the verifier does not ask for distinct signers: a list that
    repeats one signature verifies exactly when that signature does. *)
Theorem verifySignatures_replicate
    (signMsg : StdSignMsg.t) (n : nat) (s : StdSignature.t) :
  verifySignatures signMsg (replicate (S n) s) = verifySignature signMsg s.
Proof.
  rewrite verifySignatures_nonempty by discriminate.
  apply every_replicate.
Qed.

(** X6: verification reads the signature and the value of the public
    key of an entry and nothing else: replacing the type tag of the
    public keys, by any strings whatever, leaves the answers of
    [verifySignature], [verifySignatures] and [verifyTx] as they were. *)
Theorem verifySignature_ignores_type
    (signMsg : StdSignMsg.t) (retag : StdSignature.t -> string) :
  (forall s, verifySignature signMsg (with_pub_key_type (retag s) s)
             = verifySignature signMsg s)
  /\ (forall sigs,
        verifySignatures signMsg (map (fun s => with_pub_key_type (retag s) s) sigs)
        = verifySignatures signMsg sigs)
  /\ (forall (tx : StdTx.t) (meta : SignMeta.t),
        verifyTx (StdTx.mk (StdTx.tx tx)
                    (map (fun s => with_pub_key_type (retag s) s) (StdTx.signatures tx)))
          meta
        = verifyTx tx meta).
Proof.
  assert (forall m sigs,
            verifySignatures m (map (fun s => with_pub_key_type (retag s) s) sigs)
            = verifySignatures m sigs) as Hall.
  { intros m sigs.
    assert (forall l,
              every (entry_verifies (signDigest m))
                (map (fun s => with_pub_key_type (retag s) s) l)
              = every (entry_verifies (signDigest m)) l) as Hmap.
    { induction l as [|x l IH]; [reflexivity|].
      cbn [map every]. rewrite IH. reflexivity. }
    rewrite !verifySignatures_unfold.
    destruct sigs as [|s sigs]; [reflexivity|]. apply (Hmap (s :: sigs)). }
  split; [reflexivity|]. split; [apply Hall|].
  intros tx meta. unfold verifyTx. simpl. apply Hall.
Qed.

End VerifierFacts.

Section SignerMore.
Context {C : Collaborators}.

Lemma sign_unfold (bytes key : Bytes) :
  sign bytes key =
  match secp256k1Sign (hashBytes "sha256" bytes) key with
  | Return r => Return (SignResult.signature r)
  | Throw e => Throw e
  end.
Proof.
  unfold sign, Buffer_from. rewrite digest_update.
  destruct (secp256k1Sign _ _); reflexivity.
Qed.

(** X7: an exception of the signer passes unchanged through [sign],
    [createSignatureBytes], [createSignature] and [signTx], and none of
    them throws otherwise; on the store, [signTx] then creates no
    object. *)
Theorem signer_exception_propagates
    (tx : TxOrStdTx) (meta : SignMeta.t) (keyPair : KeyPair.t) (e : exn) :
  let signMsg := createSignMsg (as_Tx tx) meta in
  let key := KeyPair.privateKey keyPair in
  let thrown := secp256k1Sign (signDigest signMsg) key = Throw e in
  (sign (toCanonicalJSONBytes (StdSignMsg.to_json signMsg)) key = Throw e <-> thrown)
  /\ (createSignatureBytes signMsg key = Throw e <-> thrown)
  /\ (createSignature signMsg keyPair = Throw e <-> thrown)
  /\ (signTx tx meta keyPair = Throw e <-> thrown)
  /\ (forall (h : gmap Store.loc Store.cell) (l : Store.loc),
        Store.read_tx h l = Some tx ->
        (Store.signTx l meta keyPair h = Some (Throw e) <-> thrown)).
Proof.
  intros signMsg key thrown. unfold thrown.
  assert (sign (toCanonicalJSONBytes (StdSignMsg.to_json signMsg)) key = Throw e
          <-> secp256k1Sign (signDigest signMsg) key = Throw e) as Hsign.
  { rewrite sign_unfold. fold (signDigest signMsg).
    destruct (secp256k1Sign _ _); split; congruence. }
  assert (createSignature signMsg keyPair = Throw e
          <-> secp256k1Sign (signDigest signMsg) key = Throw e) as Hcreate.
  { rewrite createSignature_unfold. fold key.
    destruct (secp256k1Sign _ _); split; congruence. }
  split; [exact Hsign|]. split; [exact Hsign|]. split; [exact Hcreate|].
  split.
  - rewrite signTx_unfold. fold signMsg. rewrite <- Hcreate.
    destruct (createSignature signMsg keyPair); split; congruence.
  - intros h l Hread. unfold Store.signTx. rewrite Hread. fold signMsg.
    rewrite <- Hcreate.
    destruct (createSignature signMsg keyPair) as [s|e']; simpl.
    + destruct (Store.alloc _ _). split; discriminate.
    + split; congruence.
Qed.

(** X8: the sign message keeps everything it is built from: two sign
    messages are equal only if the metadata are equal and the
    transactions have the same fee, memo and messages.  A signature
    made under one chain id, account number or sequence number is thus
    a signature over another message than the one of any other. *)
Theorem createSignMsg_inj (tx1 tx2 : Tx.t) (meta1 meta2 : SignMeta.t) :
  createSignMsg tx1 meta1 = createSignMsg tx2 meta2 <->
  meta1 = meta2
  /\ Tx.fee tx1 = Tx.fee tx2
  /\ Tx.memo tx1 = Tx.memo tx2
  /\ Tx.msg tx1 = Tx.msg tx2.
Proof.
  split.
  - unfold createSignMsg. intros [= Hacc Hchain Hfee Hmemo Hmsg Hseq].
    destruct meta1, meta2. simpl in *. subst. auto.
  - intros (-> & Hfee & Hmemo & Hmsg). unfold createSignMsg.
    rewrite Hfee, Hmemo, Hmsg. reflexivity.
Qed.

(** X9: signing again with the same key pair under the same metadata
    neither replaces nor merges: the second call appends a second copy
    of the entry the first call appended. *)
Theorem signTx_twice_same_key
    (tx : TxOrStdTx) (meta : SignMeta.t) (keyPair : KeyPair.t) (stx : StdTx.t) :
  signTx tx meta keyPair = Return stx ->
  exists s : StdSignature.t,
    StdTx.signatures stx = prior_signatures tx ++ [s]
    /\ signTx (Signed stx) meta keyPair
       = Return (StdTx.mk (as_Tx tx) (prior_signatures tx ++ [s; s])).
Proof.
  rewrite signTx_unfold.
  destruct (createSignature (createSignMsg (as_Tx tx) meta) keyPair)
    as [s|e] eqn:Hs; [|discriminate].
  intros [= <-]. exists s. split; [reflexivity|].
  rewrite signTx_unfold. simpl. rewrite Hs, <- app_assoc. reflexivity.
Qed.

(** X10: signing repairs nothing: when a transaction that carries
    signatures does not verify, what [signTx] returns for it does not
    verify either, whoever signs. *)
Theorem signTx_keeps_invalid
    (tx : StdTx.t) (meta : SignMeta.t) (keyPair : KeyPair.t) (stx : StdTx.t) :
  StdTx.signatures tx <> [] ->
  verifyTx tx meta = Return false ->
  signTx (Signed tx) meta keyPair = Return stx ->
  verifyTx stx meta = Return false.
Proof.
  intros Hne Hbad. rewrite signTx_unfold.
  destruct (createSignature _ _) as [s|e]; [|discriminate].
  intros [= <-]. unfold verifyTx in *. simpl in *.
  rewrite verifySignatures_nonempty in Hbad by assumption.
  rewrite verifySignatures_nonempty
    by (destruct (StdTx.signatures tx); [congruence | discriminate]).
  rewrite every_app, Hbad. reflexivity.
Qed.

(** X11: when several key pairs sign in turn, the transaction that
    comes out has the same fields, the signatures it had at first,
    unchanged and in front, and after them one entry for each key pair,
    in the order of signing, each with the public key of its key
    pair. *)
Theorem signTx_each_signatures
    (keyPairs : list KeyPair.t) (tx : StdTx.t) (meta : SignMeta.t) (stx : StdTx.t) :
  signTx_each tx meta keyPairs = Return stx ->
  StdTx.tx stx = StdTx.tx tx
  /\ exists added : list StdSignature.t,
       StdTx.signatures stx = StdTx.signatures tx ++ added
       /\ length added = length keyPairs
       /\ map (fun s => PubKey.value (StdSignature.pub_key s)) added
          = map (fun k => bytesToBase64 (KeyPair.publicKey k)) keyPairs.
Proof.
  revert tx. induction keyPairs as [|keyPair rest IH]; intros tx; simpl.
  - intros [= <-]. split; [reflexivity|]. exists []. rewrite app_nil_r. auto.
  - rewrite signTx_unfold, createSignature_unfold.
    destruct (secp256k1Sign _ _) as [r|e]; [|discriminate].
    intros Hrest. apply IH in Hrest as (Htx & added & Hsigs & Hlen & Hkeys).
    simpl in *. split; [exact Htx|].
    exists (signature_entry (SignResult.signature r) (KeyPair.publicKey keyPair)
              :: added).
    rewrite Hsigs, <- app_assoc. simpl. rewrite Hlen, Hkeys. auto.
Qed.

End SignerMore.

Section RoundTripMore.
Context {C : Collaborators} {L : CollaboratorLaws C}.

(** X12: bytes signed by [sign] are signed over their SHA-256 digest:
    the signing key has a compressed public key, and the signature
    verifies against that digest under it.  For the canonical bytes of
    a sign message this is what [verifySignatureBytes] checks, so it
    accepts what [createSignatureBytes] returns. *)
Theorem sign_verifies (bytes key sig : Bytes) :
  sign bytes key = Return sig ->
  exists publicKey,
    secp256k1PublicKeyCreate key true = Return publicKey
    /\ secp256k1Verify (hashBytes "sha256" bytes) sig publicKey = Return true
    /\ (forall signMsg : StdSignMsg.t,
          toCanonicalJSONBytes (StdSignMsg.to_json signMsg) = bytes ->
          createSignatureBytes signMsg key = Return sig
          /\ verifySignatureBytes signMsg sig publicKey = Return true).
Proof.
  intros Hsign.
  assert (exists publicKey,
            secp256k1PublicKeyCreate key true = Return publicKey
            /\ secp256k1Verify (hashBytes "sha256" bytes) sig publicKey = Return true)
    as (publicKey & Hkey & Hverify).
  { rewrite sign_unfold in Hsign.
    destruct (secp256k1Sign _ _) as [r|e] eqn:Hr; [|discriminate].
    injection Hsign as <-. apply secp256k1_sign_verify, Hr. }
  exists publicKey. split; [exact Hkey|]. split; [exact Hverify|].
  intros signMsg <-. split; [exact Hsign|].
  unfold verifySignatureBytes, Buffer_from. rewrite digest_update. exact Hverify.
Qed.

(** X13: an entry made by [createSignature] with a key pair that holds
    the compressed public key of its private key is accepted by
    [verifySignature] for the same sign message, and alone it makes a
    list that [verifySignatures] accepts. *)
Theorem createSignature_verifySignature
    (signMsg : StdSignMsg.t) (keyPair : KeyPair.t) (s : StdSignature.t) :
  secp256k1PublicKeyCreate (KeyPair.privateKey keyPair) true
    = Return (KeyPair.publicKey keyPair) ->
  createSignature signMsg keyPair = Return s ->
  verifySignature signMsg s = Return true
  /\ verifySignatures signMsg [s] = Return true.
Proof.
  intros Hkey. rewrite createSignature_unfold.
  destruct (secp256k1Sign _ _) as [r|e] eqn:Hr; [|discriminate].
  intros [= <-].
  assert (verifySignature signMsg
            (signature_entry (SignResult.signature r) (KeyPair.publicKey keyPair))
          = Return true) as Hverify.
  { rewrite verifySignature_unfold. apply (new_entry_verifies _ _ _ _ Hr Hkey). }
  split; [exact Hverify|].
  rewrite verifySignatures_unfold. simpl.
  rewrite <- verifySignature_unfold, Hverify. reflexivity.
Qed.

(** X14: the keys of a wallet made from a master key sign: whenever the
    signer accepts the private key of the wallet, [signTx] with the
    wallet as key pair returns a transaction that [verifyTx] accepts,
    whose one signature carries the public key of the wallet. *)
Theorem wallet_signTx_verifyTx
    (masterKey : BIP32Interface) (prefix path : option string) (w : Wallet.t)
    (tx : Tx.t) (meta : SignMeta.t) (r : SignResult.t) :
  createWalletFromMasterKey masterKey prefix path = Return w ->
  secp256k1Sign (signDigest (createSignMsg tx meta)) (Wallet.privateKey w)
    = Return r ->
  exists stx,
    signTx (Unsigned tx) meta (Wallet_as_KeyPair w) = Return stx
    /\ verifyTx stx meta = Return true
    /\ map (fun s => PubKey.value (StdSignature.pub_key s)) (StdTx.signatures stx)
       = [bytesToBase64 (Wallet.publicKey w)].
Proof.
  intros Hwallet Hsign.
  assert (secp256k1PublicKeyCreate (Wallet.privateKey w) true
          = Return (Wallet.publicKey w)) as Hkey.
  { rewrite createWalletFromMasterKey_unfold in Hwallet.
    destruct (createKeyPairFromMasterKey masterKey path) as [kp|e] eqn:Hkp;
      [|discriminate].
    destruct (createKeyPairFromMasterKey_Return _ _ _ Hkp) as [_ Hpub].
    destruct (createAddress _ _); [|discriminate].
    injection Hwallet as <-. exact Hpub. }
  assert (signTx (Unsigned tx) meta (Wallet_as_KeyPair w)
          = Return (StdTx.mk tx
                      [signature_entry (SignResult.signature r) (Wallet.publicKey w)]))
    as Hret.
  { rewrite signTx_unfold, createSignature_unfold. simpl. rewrite Hsign.
    reflexivity. }
  eexists. split; [exact Hret|]. split; [|reflexivity].
  rewrite (verifyTx_after_signTx (Unsigned tx) meta (Wallet_as_KeyPair w) _ Hkey Hret).
  reflexivity.
Qed.

(** X15: a transaction that verifies still verifies after any number of
    further signers, each with the compressed public key of its private
    key, have signed it in turn under the same metadata. *)
Theorem signTx_each_verifyTx
    (keyPairs : list KeyPair.t) (tx : StdTx.t) (meta : SignMeta.t) (stx : StdTx.t) :
  Forall (fun k => secp256k1PublicKeyCreate (KeyPair.privateKey k) true
                   = Return (KeyPair.publicKey k)) keyPairs ->
  verifyTx tx meta = Return true ->
  signTx_each tx meta keyPairs = Return stx ->
  verifyTx stx meta = Return true.
Proof.
  revert tx. induction keyPairs as [|keyPair rest IH]; intros tx Hkeys Hvalid; simpl.
  - intros [= <-]. exact Hvalid.
  - apply Forall_cons in Hkeys as [Hkey Hkeys].
    destruct (signTx (Signed tx) meta keyPair) as [tx'|e] eqn:Hsigned; [|discriminate].
    apply IH; [exact Hkeys|].
    rewrite (verifyTx_after_signTx (Signed tx) meta keyPair tx' Hkey Hsigned).
    simpl. unfold verifyTx in Hvalid. rewrite verifySignatures_unfold in Hvalid.
    destruct (StdTx.signatures tx); [discriminate|]. exact Hvalid.
Qed.

End RoundTripMore.

(** ** The further properties on the stand-ins *)

Section RunsMore.
Import Standin StandinMnemonic.

(** The wallet of [master_key] on the default path, under the default
    prefix. *)
Lemma createWalletFromMasterKey_wallet_witness :
  exists w,
    @createWalletFromMasterKey Standin.collaborators master_key None None = Return w
    /\ @secp256k1PublicKeyCreate Standin.collaborators (Wallet.privateKey w) true
       = Return (Wallet.publicKey w)
    /\ @createAddress Standin.collaborators (Wallet.publicKey w) None
       = Return (Wallet.address w).
Proof.
  destruct (@createWalletFromMasterKey_wallet Standin.collaborators
              master_key None None) as [Hwallet _].
  destruct (@createWalletFromMasterKey Standin.collaborators master_key None None)
    as [w|e] eqn:Hw; [|vm_compute in Hw; discriminate].
  destruct (Hwallet w eq_refl) as (_ & Hkey & Haddress & _).
  exists w. auto.
Defined.

(** Under the prefix of 54 characters the keys of [master_key] are
    derived, the address cannot be encoded, and no wallet is made. *)
Example createWalletFromMasterKey_long_prefix :
  (exists kp,
      @createKeyPairFromMasterKey Standin.collaborators master_key None = Return kp)
  /\ @createWalletFromMasterKey Standin.collaborators master_key
       (Some long_prefix) None
     = Throw (TypeError "Exceeds length limit").
Proof. split; [eexists|]; vm_compute; reflexivity. Qed.

(** The wallet of a two-word mnemonic. *)
Lemma createWalletFromMnemonic_result_witness :
  exists w masterKey,
    @createWalletFromMnemonic Standin.collaborators StandinMnemonic.collaborators
      "abandon about" None None = Return w
    /\ @createMasterKeyFromMnemonic Standin.collaborators
         StandinMnemonic.collaborators "abandon about" = Return masterKey
    /\ @createWalletFromMasterKey Standin.collaborators masterKey None None
       = Return w.
Proof.
  destruct (@createWalletFromMnemonic Standin.collaborators
              StandinMnemonic.collaborators "abandon about" None None)
    as [w|e] eqn:Hw; [|vm_compute in Hw; discriminate].
  destruct (@createWalletFromMnemonic_result Standin.collaborators
              StandinMnemonic.collaborators "abandon about" None None w Hw)
    as (seed & masterKey & _ & _ & Hmaster & Hwallet & _).
  exists w, masterKey. auto.
Defined.

(** The signatures of [alice] and [bob], in either order. *)
Lemma verifySignatures_Permutation_witness :
  @verifySignatures Standin.collaborators (createSignMsg tx0 meta0)
    [alice_signed_entry; bob_signed_entry]
  = @verifySignatures Standin.collaborators (createSignMsg tx0 meta0)
      [bob_signed_entry; alice_signed_entry].
Proof.
  destruct (@verifySignatures_Permutation Standin.collaborators
              (createSignMsg tx0 meta0)
              [alice_signed_entry; bob_signed_entry]
              [bob_signed_entry; alice_signed_entry]
              (Permutation_swap _ _ _)) as (_ & Hsame & _).
  apply Hsame.
  repeat (apply Forall_cons; split; [exists true; vm_compute; reflexivity|]).
  apply Forall_nil. exact I.
Defined.

Lemma verifySignatures_app_witness :
  @verifySignatures Standin.collaborators (createSignMsg tx0 meta0)
    ([alice_signed_entry] ++ [bob_signed_entry])
  = match @verifySignatures Standin.collaborators (createSignMsg tx0 meta0)
            [alice_signed_entry] with
    | Return true =>
        @verifySignatures Standin.collaborators (createSignMsg tx0 meta0)
          [bob_signed_entry]
    | Return false => Return false
    | Throw e => Throw e
    end.
Proof.
  apply (@verifySignatures_app Standin.collaborators); discriminate.
Defined.

(** The empty private key is rejected by the signer, and by [signTx]. *)
Lemma signer_exception_propagates_witness :
  @signTx Standin.collaborators (Unsigned tx0) meta0 (KeyPair.mk [] [])
  = Throw (Error "private key is invalid").
Proof.
  destruct (@signer_exception_propagates Standin.collaborators
              (Unsigned tx0) meta0 (KeyPair.mk [] [])
              (Error "private key is invalid")) as (_ & _ & _ & Hsign & _).
  apply Hsign. reflexivity.
Defined.

(** [alice] signs [tx0] twice. *)
Lemma signTx_twice_same_key_witness :
  exists s : StdSignature.t,
    StdTx.signatures alice_signed = [] ++ [s]
    /\ @signTx Standin.collaborators (Signed alice_signed) meta0 alice
       = Return (StdTx.mk tx0 ([] ++ [s; s])).
Proof.
  apply (@signTx_twice_same_key Standin.collaborators (Unsigned tx0) meta0 alice
           alice_signed).
  vm_compute. reflexivity.
Defined.

(** What [alice] signed at sequence number 0 does not verify at
    sequence number 1, before or after [bob] signs it there. *)
Lemma signTx_keeps_invalid_witness :
  exists stx,
    @signTx Standin.collaborators (Signed alice_signed) meta1 bob = Return stx
    /\ @verifyTx Standin.collaborators stx meta1 = Return false.
Proof.
  eexists. split; [vm_compute; reflexivity|].
  eapply (@signTx_keeps_invalid Standin.collaborators alice_signed meta1 bob).
  - discriminate.
  - vm_compute. reflexivity.
  - vm_compute. reflexivity.
Defined.

(** [bob], then [alice] again, sign what [alice] signed. *)
Lemma signTx_each_signatures_witness :
  exists stx,
    @signTx_each Standin.collaborators alice_signed meta0 [bob; alice] = Return stx
    /\ StdTx.tx stx = tx0
    /\ length (StdTx.signatures stx) = 3.
Proof.
  eexists. split; [vm_compute; reflexivity|].
  edestruct (@signTx_each_signatures Standin.collaborators [bob; alice]
               alice_signed meta0) as (Htx & added & Hsigs & Hlen & _).
  - vm_compute. reflexivity.
  - split; [exact Htx|]. rewrite Hsigs, length_app, Hlen. reflexivity.
Defined.

(** Two bytes signed with the private key of [alice]. *)
Lemma sign_verifies_witness :
  exists publicKey,
    @secp256k1PublicKeyCreate Standin.collaborators (KeyPair.privateKey alice) true
    = Return publicKey
    /\ @secp256k1Verify Standin.collaborators
         (@hashBytes Standin.collaborators "sha256" [Byte.x0a; Byte.x0b])
         (@hashBytes Standin.collaborators "sha256" [Byte.x0a; Byte.x0b]
            ++ KeyPair.publicKey alice)
         publicKey
       = Return true.
Proof.
  destruct (@sign_verifies Standin.collaborators standin_laws
              [Byte.x0a; Byte.x0b] (KeyPair.privateKey alice)
              (@hashBytes Standin.collaborators "sha256" [Byte.x0a; Byte.x0b]
                 ++ KeyPair.publicKey alice))
    as (publicKey & Hkey & Hverify & _).
  - vm_compute. reflexivity.
  - exists publicKey. auto.
Defined.

Lemma createSignature_verifySignature_witness :
  @verifySignature Standin.collaborators (createSignMsg tx0 meta0) alice_signed_entry
  = Return true.
Proof.
  apply (@createSignature_verifySignature Standin.collaborators standin_laws
           (createSignMsg tx0 meta0) alice alice_signed_entry).
  - reflexivity.
  - vm_compute. reflexivity.
Defined.

(** The wallet of [master_key] on the default path signs [tx0]. *)
Lemma wallet_signTx_verifyTx_witness :
  exists w stx,
    @createWalletFromMasterKey Standin.collaborators master_key None None = Return w
    /\ @signTx Standin.collaborators (Unsigned tx0) meta0 (Wallet_as_KeyPair w)
       = Return stx
    /\ @verifyTx Standin.collaborators stx meta0 = Return true.
Proof.
  assert (forall w,
            @createWalletFromMasterKey Standin.collaborators master_key None None
              = Return w ->
            exists stx,
              @signTx Standin.collaborators (Unsigned tx0) meta0 (Wallet_as_KeyPair w)
                = Return stx
              /\ @verifyTx Standin.collaborators stx meta0 = Return true) as Hall.
  { intros w Hw.
    edestruct (@wallet_signTx_verifyTx Standin.collaborators standin_laws
                 master_key None None w tx0 meta0) as (stx & Hsign & Hverify & _).
    - exact Hw.
    - vm_compute in Hw. injection Hw as <-. vm_compute. reflexivity.
    - eauto. }
  destruct (@createWalletFromMasterKey Standin.collaborators master_key None None)
    as [w|e] eqn:Hw; [|vm_compute in Hw; discriminate].
  destruct (Hall w eq_refl) as (stx & Hsign & Hverify).
  exists w, stx. auto.
Defined.

(** [bob] signs what [alice] signed, under the same metadata. *)
Lemma signTx_each_verifyTx_witness :
  exists stx,
    @signTx_each Standin.collaborators alice_signed meta0 [bob] = Return stx
    /\ @verifyTx Standin.collaborators stx meta0 = Return true.
Proof.
  eexists. split; [vm_compute; reflexivity|].
  eapply (@signTx_each_verifyTx Standin.collaborators standin_laws [bob]
            alice_signed meta0).
  - repeat constructor.
  - vm_compute. reflexivity.
  - vm_compute. reflexivity.
Defined.

End RunsMore.
